(** * PyEtcdConf: service and configuration lookup over an etcd tree

    A shallow embedding of [etcd.py].  The module reads two kinds of
    entries from an etcd v2 HTTP API -- service endpoints below
    [backends/] and configuration trees below [project-conf/] -- and
    merges them into one dictionary, optionally kept in the module-level
    dictionary [_cached_result].

    The embedding follows the Python text function by function:
    - decoded JSON is the type [pyval]; dictionaries are [gmap string pyval],
      which gives them Python's order-insensitive equality;
    - a Python expression that may raise is a [result]; the built-in
      exceptions the program can meet are the type [exn];
    - [requests.get(url).json()] is the only access to the outside: the
      store is a function from URLs to outcomes, and every function that
      fetches returns, next to its outcome, the list of URLs it requested;
    - [_cached_result] is threaded explicitly through [info].

    Conventions: text is a string of bytes; names, aliases and cache
    keys are text, [service_names] and [conf_names] are [None] or a
    list; the interpreter's recursion limit is not modelled; returned
    dictionaries are values, so a caller mutating a bundle it was handed
    is outside the model. *)

From Stdlib Require Import ZArith Ascii String Lia.
From stdpp Require Import gmap strings list fin_maps.

Open Scope string_scope.
Open Scope Z_scope.

(** ** Values *)

#[local] Set Warnings "-register-all".

(** Decoded JSON.  JSON numbers are kept as integers: the program only
    tests numbers for truth and never computes with them. *)
Inductive pyval :=
| PNone
| PBool (b : bool)
| PInt (z : Z)
| PStr (s : string)
| PList (l : list pyval)
| PDict (d : gmap string pyval).

Abbreviation dict := (gmap string pyval).

(** The exceptions that the operations used by the module can raise.
    [ConnectionError] stands for every failure of [requests.get] itself;
    a body that is not JSON makes [.json()] raise [ValueError]. *)
Inductive exn :=
| KeyError | IndexError | ValueError | TypeError | AttributeError
| RuntimeError | ConnectionError.

Inductive result (A : Type) :=
| Ok (a : A)
| Raise (e : exn).
Arguments Ok {A} a.
Arguments Raise {A} e.

Definition exn_eqb (e1 e2 : exn) : bool :=
  match e1, e2 with
  | KeyError, KeyError | IndexError, IndexError | ValueError, ValueError
  | TypeError, TypeError | AttributeError, AttributeError
  | RuntimeError, RuntimeError | ConnectionError, ConnectionError => true
  | _, _ => false
  end.

Definition bind_r {A B} (c : result A) (k : A -> result B) : result B :=
  match c with
  | Ok a => k a
  | Raise e => Raise e
  end.

Notation "'let*' x := c 'in' k" := (bind_r c (fun x => k))
  (at level 10, x pattern, c at level 100, k at level 200).

(** ** The fragment of Python the module uses *)

(** Truth value of an object, as tested by [if], [and], [or] and
    [filter(lambda v: v, ...)]. *)
Definition py_truthy (v : pyval) : bool :=
  match v with
  | PNone => false
  | PBool b => b
  | PInt z => negb (z =? 0)
  | PStr s => negb (String.eqb s "")
  | PList l => match l with [] => false | _ => true end
  | PDict d => negb (bool_decide (d = ∅))
  end.

(** [v[k]] for a string subscript [k]: only dictionaries accept one. *)
Definition py_getitem (v : pyval) (k : string) : result pyval :=
  match v with
  | PDict d => match d !! k with Some x => Ok x | None => Raise KeyError end
  | _ => Raise TypeError
  end.

(** [s.split(c)] for a one-character separator. *)
Fixpoint split_on (c : ascii) (s : string) : list string :=
  match s with
  | EmptyString => [EmptyString]
  | String a s' =>
      if Ascii.eqb a c then EmptyString :: split_on c s'
      else match split_on c s' with
           | h :: t => String a h :: t
           | [] => [String a EmptyString]
           end
  end.

(** [v.split(c)]: the method exists on strings only. *)
Definition py_split (v : pyval) (c : ascii) : result (list string) :=
  match v with
  | PStr s => Ok (split_on c s)
  | _ => Raise AttributeError
  end.

(** [l[i]] on a list, with Python's negative indices. *)
Definition py_index {A} (l : list A) (i : Z) : result A :=
  let n := Z.of_nat (length l) in
  let j := if i <? 0 then n + i else i in
  if (j <? 0) || (n <=? j) then Raise IndexError
  else match l !! Z.to_nat j with
       | Some x => Ok x
       | None => Raise IndexError
       end.

(** [needle in s] for strings: substring test. *)
Fixpoint is_substring (needle s : string) : bool :=
  String.prefix needle s ||
  match s with
  | EmptyString => false
  | String _ s' => is_substring needle s'
  end.

(** Equality of a string with an arbitrary object. *)
Definition py_eq_str (k : string) (v : pyval) : bool :=
  match v with
  | PStr s => String.eqb k s
  | _ => false
  end.

(** [k in v] for a string [k]. *)
Definition py_contains (k : string) (v : pyval) : result bool :=
  match v with
  | PDict d => Ok (bool_decide (is_Some (d !! k)))
  | PList l => Ok (existsb (py_eq_str k) l)
  | PStr s => Ok (is_substring k s)
  | _ => Raise TypeError
  end.

Fixpoint chars (s : string) : list pyval :=
  match s with
  | EmptyString => []
  | String a s' => PStr (String a EmptyString) :: chars s'
  end.

(** The sequence a [for] loop or [map] draws from an object.  A
    dictionary yields its keys (in no order the program may rely on), a
    string its characters. *)
Definition py_iter (v : pyval) : result (list pyval) :=
  match v with
  | PList l => Ok l
  | PStr s => Ok (chars s)
  | PDict d => Ok (PStr <$> (map_to_list d).*1)
  | _ => Raise TypeError
  end.

(** [int(s)] on text: optional blanks around an optional sign and at
    least one decimal digit.  The digits and blanks read are the ASCII
    ones: [py_int] returns an integer only on text that [int] reads to
    the same integer (it accepts plain ASCII only, lemma
    [py_int_ok_plain]), and on text of plain ASCII characters
    ([plain_text] below) it raises exactly when [int] does.  What [int]
    makes of digits and blanks of other scripts depends on the
    interpreter's Unicode tables and is not modelled; no statement
    below draws on [py_int] raising on such text. *)
Definition is_blank (a : ascii) : bool :=
  let n := nat_of_ascii a in
  ((9 <=? n) && (n <=? 13))%nat || (n =? 32)%nat.

Definition digit_of (a : ascii) : option Z :=
  let n := nat_of_ascii a in
  if ((48 <=? n) && (n <=? 57))%nat then Some (Z.of_nat n - 48) else None.

Fixpoint lstrip (s : string) : string :=
  match s with
  | String a s' => if is_blank a then lstrip s' else s
  | EmptyString => EmptyString
  end.

Fixpoint all_blank (s : string) : bool :=
  match s with
  | EmptyString => true
  | String a s' => is_blank a && all_blank s'
  end.

(** Reads digits into [acc]; [seen] records that one was read.  Stops at
    the first non-digit, which must start a run of trailing blanks. *)
Fixpoint digits (seen : bool) (acc : Z) (s : string) : option Z :=
  match s with
  | EmptyString => if seen then Some acc else None
  | String a s' =>
      match digit_of a with
      | Some d => digits true (10 * acc + d) s'
      | None => if seen && all_blank s then Some acc else None
      end
  end.

Definition py_int (s : string) : result Z :=
  let parsed :=
    match lstrip s with
    | String "-" s' => Z.opp <$> digits false 0 s'
    | String "+" s' => digits false 0 s'
    | s' => digits false 0 s'
    end in
  match parsed with
  | Some z => Ok z
  | None => Raise ValueError
  end.

(** [dict(pairs)]: later pairs replace earlier ones with the same key. *)
Definition py_dict (pairs : list (string * pyval)) : dict :=
  foldl (fun m kv => <[kv.1 := kv.2]> m) ∅ pairs.

(** [m.update(other)] where [other] is what a function returning a
    dictionary or [None] gave: [None] is not iterable. *)
Definition py_update (m : dict) (other : option dict) : result dict :=
  match other with
  | Some d => Ok (d ∪ m)
  | None => Raise TypeError
  end.

(** Left-to-right evaluation of [f] over a list, stopping at the first
    exception. *)
Fixpoint map_r {A B} (f : A -> result B) (l : list A) : result (list B) :=
  match l with
  | [] => Ok []
  | x :: l' => let* y := f x in let* ys := map_r f l' in Ok (y :: ys)
  end.

Fixpoint foldl_r {A B} (f : B -> A -> result B) (b : B) (l : list A) : result B :=
  match l with
  | [] => Ok b
  | x :: l' => let* b' := f b x in foldl_r f b' l'
  end.

(** [map(f, v)] of Python 2: eager, over whatever [v] iterates to. *)
Definition py_map {B} (f : pyval -> result B) (v : pyval) : result (list B) :=
  let* l := py_iter v in map_r f l.

(** [a and b] where only the truth value is used. *)
Definition py_and (a b : result bool) : result bool :=
  let* x := a in if x then b else Ok false.

Definition truth_of (r : result pyval) : result bool :=
  let* v := r in Ok (py_truthy v).

(** ** Talking to the store *)

(** What [requests.get(url).json()] evaluates to, for every URL. *)
Definition store := string -> result pyval.

(** A computation that may fetch: its outcome and the URLs it requested,
    oldest first. *)
Definition io (A : Type) : Type := result A * list string.

Definition io_ret {A} (a : A) : io A := (Ok a, []).

Definition io_bind {A B} (c : io A) (k : A -> io B) : io B :=
  match c with
  | (Ok a, t) => let '(r, t') := k a in (r, (t ++ t')%list)
  | (Raise e, t) => (Raise e, t)
  end.

Notation "'let!' x := c 'in' k" := (io_bind c (fun x => k))
  (at level 10, x pattern, c at level 100, k at level 200).

Definition lift {A} (r : result A) : io A := (r, []).

Definition requests_get_json (st : store) (url : string) : io pyval :=
  (st url, [url]).

(** [try: c  except (handled): h]. *)
Definition try_except {A} (c : io A) (handled : list exn) (h : io A) : io A :=
  match c with
  | (Raise e, t) =>
      if existsb (exn_eqb e) handled
      then let '(r, t') := h in (r, (t ++ t')%list)
      else (Raise e, t)
  | ok => ok
  end.

Fixpoint io_map {A B} (f : A -> io B) (l : list A) : io (list B) :=
  match l with
  | [] => io_ret []
  | x :: l' => let! y := f x in let! ys := io_map f l' in io_ret (y :: ys)
  end.

(** ** [get_service] *)

Definition get_service_entry (entry : pyval) : result (string * pyval) :=
  let* k := py_getitem entry "key" in
  let* segments := py_split k "/" in
  let* key := py_index segments (-1) in
  let* v := py_getitem entry "value" in
  let* value := py_split v ":" in
  let* host := py_index value 0 in
  let* p := py_index value 1 in
  let* port := py_int p in
  Ok (key, PDict {[ "host" := PStr host; "port" := PInt port ]}).

Definition service_url (etcd_url service_name : string) : string :=
  etcd_url ++ "/v2/keys/backends/" ++ service_name.

Definition get_service (st : store) (etcd_url service_name alias : string)
  : io (option dict) :=
  let url := service_url etcd_url service_name in
  try_except
    (let! data := requests_get_json st url in
     lift (let* node := py_getitem data "node" in
           let* nodes := py_getitem node "nodes" in
           let* entries := py_map get_service_entry nodes in
           Ok (Some {[ alias := PDict (py_dict entries) ]})))
    [KeyError; IndexError; ValueError]
    (io_ret None).

(** ** [get_conf] *)

(** [node_alias or node['key'].split('/')[-1]]. *)
Definition current_key_of (node : pyval) (node_alias : option string)
  : result string :=
  match node_alias with
  | Some a =>
      if py_truthy (PStr a) then Ok a
      else let* k := py_getitem node "key" in
           let* segments := py_split k "/" in
           py_index segments (-1)
  | None =>
      let* k := py_getitem node "key" in
      let* segments := py_split k "/" in
      py_index segments (-1)
  end.

(** ['dir' in node and node['dir'] and 'nodes' in node and node['nodes']]. *)
Definition is_nonempty_dir (node : pyval) : result bool :=
  py_and (py_contains "dir" node)
    (py_and (truth_of (py_getitem node "dir"))
       (py_and (py_contains "nodes" node)
          (truth_of (py_getitem node "nodes")))).

(** The body of [build_conf], with the recursive call as a parameter. *)
Definition build_conf_body (build : pyval -> result (option dict))
    (node : pyval) (node_alias : option string) : result (option dict) :=
  let* current_key := current_key_of node node_alias in
  let* isdir := is_nonempty_dir node in
  if isdir then
    let* nodes := py_getitem node "nodes" in
    let* ns := py_iter nodes in
    let* m := foldl_r (fun m n => let* r := build n in py_update m r) ∅ ns in
    Ok (Some {[ current_key := PDict m ]})
  else
    let* has_value := py_contains "value" node in
    if has_value then
      let* v := py_getitem node "value" in
      Ok (Some {[ current_key := v ]})
    else Ok None.

(** Nesting depth of a value; it bounds the recursion of [build_conf]. *)
Fixpoint height (v : pyval) : nat :=
  match v with
  | PList l => S (foldr (fun x n => Nat.max (height x) n) 0%nat l)
  | PDict d => S (map_fold (fun _ x n => Nat.max (height x) n) 0%nat d)
  | _ => 0%nat
  end.

(** [build_conf] calls itself on the members of [node['nodes']] only.
    The recursion is written with a depth budget; [build_conf] below
    starts it with more than the height of the node, which is never
    used up (lemma [build_conf_unfold]). *)
Fixpoint build_conf_rec (budget : nat) (node : pyval)
    (node_alias : option string) : result (option dict) :=
  match budget with
  | O => Raise RuntimeError
  | S budget' =>
      build_conf_body (fun n => build_conf_rec budget' n None) node node_alias
  end.

Definition build_conf (node : pyval) (node_alias : option string)
  : result (option dict) :=
  build_conf_rec (S (height node)) node node_alias.

Definition conf_url (etcd_url conf_name : string) : string :=
  etcd_url ++ "/v2/keys/project-conf/" ++ conf_name ++ "?recursive=true".

Definition get_conf (st : store) (etcd_url conf_name alias : string)
  : io (option dict) :=
  let url := conf_url etcd_url conf_name in
  let! data := requests_get_json st url in
  lift (let* has_node := py_contains "node" data in
        if negb has_node then Ok None
        else let* node := py_getitem data "node" in
             build_conf node (Some alias)).

(** ** [_build_tuple] and [info] *)

(** An entry of [service_names] or [conf_names].  The documented entries
    are strings and [(name, alias)] tuples; [Tuple] is a tuple of strings
    of any length and [Obj] any object that is not a tuple. *)
Inductive entry :=
| Tuple (t : list string)
| Obj (v : pyval).

Definition _build_tuple (val : entry) : result (string * string) :=
  match val with
  | Tuple [name; alias] => Ok (name, alias)
  | Obj (PStr s) => Ok (s, s)
  | _ => Raise ValueError
  end.

(** [merge_dicts]: the arguments are merged from left to right into a
    new dictionary, later ones taking precedence. *)
Definition merge_dicts (dict_args : list dict) : dict :=
  foldl (fun result_map dictionary => dictionary ∪ result_map) ∅ dict_args.

(** [filter(lambda v: v, results)] on results that are a dictionary or
    [None]. *)
Definition filter_truthy (results : list (option dict)) : list dict :=
  omap (fun r => match r with
                 | Some d => if py_truthy (PDict d) then Some d else None
                 | None => None
                 end) results.

(** The list comprehension of [info]: for every entry of [names or []],
    in order, [_build_tuple] the entry and call [f] with the etcd URL
    and the two components. *)
Definition lookup_step (f : string -> string -> io (option dict))
    (e : entry) : io (option dict) :=
  let! na := lift (_build_tuple e) in f na.1 na.2.

Definition lookup_each (f : string -> string -> io (option dict))
    (names : option (list entry)) : io (list (option dict)) :=
  io_map (lookup_step f) (default [] names).

(** The part of [info] after the cache test and before the cache write. *)
Definition gather (st : store) (etcd_url : string)
    (service_names conf_names : option (list entry)) : io dict :=
  let! found := lookup_each (get_service st etcd_url) service_names in
  let services := merge_dicts (filter_truthy found) in
  let! found_conf := lookup_each (get_conf st etcd_url) conf_names in
  let conf := merge_dicts (filter_truthy found_conf) in
  io_ret (merge_dicts [ {[ "services" := PDict services ]}; conf ]).

(** [if cache_key:] for a key that is [None] or a string. *)
Definition key_given (cache_key : option string) : bool :=
  match cache_key with
  | Some k => py_truthy (PStr k)
  | None => false
  end.

(** [not force_refresh and cache_key and cache_key in _cached_result]. *)
Definition cache_hit (cache_key : option string) (force_refresh : bool)
    (_cached_result : gmap string dict) : option dict :=
  if force_refresh then None
  else match cache_key with
       | Some k => if py_truthy (PStr k) then _cached_result !! k else None
       | None => None
       end.

(** [info] returns its outcome, the URLs requested and the new contents
    of [_cached_result]. *)
Definition info (st : store) (etcd_url : string)
    (service_names conf_names : option (list entry))
    (cache_key : option string) (force_refresh : bool)
    (_cached_result : gmap string dict) : io dict * gmap string dict :=
  match cache_hit cache_key force_refresh _cached_result with
  | Some cached => (io_ret cached, _cached_result)
  | None =>
      match gather st etcd_url service_names conf_names with
      | (Ok result, t) =>
          ((Ok result, t),
           match cache_key with
           | Some k =>
               if py_truthy (PStr k) then <[k := result]> _cached_result
               else _cached_result
           | None => _cached_result
           end)
      | (Raise e, t) => ((Raise e, t), _cached_result)
      end
  end.

(** * Vocabulary of the specification *)

(** [c] occurs in [s]. *)
Fixpoint occurs (c : ascii) (s : string) : bool :=
  match s with
  | EmptyString => false
  | String a s' => Ascii.eqb a c || occurs c s'
  end.

(** The last path segment of a key: what follows its last slash. *)
Definition last_path_segment (key : string) : string :=
  List.last (split_on "/" key) "".

(** The exceptions [get_service] turns into [None]. *)
Definition handled (e : exn) : bool :=
  existsb (exn_eqb e) [KeyError; IndexError; ValueError].

(** *** Service leaves *)


(** Plain characters: printable ASCII and the ASCII blanks, the
    underscore apart (a digit separator for some interpreters). *)
Definition plain_char (a : ascii) : bool :=
  let n := nat_of_ascii a in
  ((((9 <=? n) && (n <=? 13)) || ((32 <=? n) && (n <=? 126))) &&
   negb (n =? 95))%nat.

Fixpoint plain_text (s : string) : bool :=
  match s with
  | EmptyString => true
  | String a s' => plain_char a && plain_text s'
  end.

(** The characters [py_int] reads: blanks, signs and digits. *)
Definition literal_char (a : ascii) : bool :=
  is_blank a || bool_decide (is_Some (digit_of a)) ||
  Ascii.eqb a "+" || Ascii.eqb a "-".

Fixpoint literal_text (s : string) : bool :=
  match s with
  | EmptyString => true
  | String a s' => literal_char a && literal_text s'
  end.




(** What a well-formed service leaf stands for. *)
Record endpoint := Endpoint {
  ep_key : string;        (* the leaf's key, a full path *)
  ep_host : string;
  ep_port_text : string;  (* the port as written in the value *)
  ep_port : Z
}.

Definition replica_id (e : endpoint) : string := last_path_segment (ep_key e).

(** [n] is a leaf with key [ep_key e] and value [host:port], the port
    being the integer [ep_port e]. *)
Definition well_formed_leaf (n : pyval) (e : endpoint) : Prop :=
  ∃ d : dict, n = PDict d ∧
    d !! "key" = Some (PStr (ep_key e)) ∧
    d !! "value" = Some (PStr (ep_host e ++ ":" ++ ep_port_text e)) ∧
    occurs ":" (ep_host e) = false ∧
    py_int (ep_port_text e) = Ok (ep_port e).

Definition endpoint_value (e : endpoint) : pyval :=
  PDict {[ "host" := PStr (ep_host e); "port" := PInt (ep_port e) ]}.

(** *** Configuration trees *)

(** A configuration tree without empty or absent nodes: leaves carry a
    value, directories carry children. *)
Inductive conf_tree :=
| Leaf (key : string) (value : pyval)
| Dir (key : string) (children : list conf_tree).

Definition tree_key (t : conf_tree) : string :=
  match t with
  | Leaf key _ | Dir key _ => key
  end.

(** The resolution of a tree as the specification words it: a leaf
    resolves to its value, a directory to the shallow merge, in order,
    of the one-key mappings of its children, each child being keyed by
    the last path segment of its key. *)
Fixpoint resolved (t : conf_tree) : pyval :=
  match t with
  | Leaf _ value => value
  | Dir _ children =>
      PDict (merge_dicts
               (map (fun c => {[ last_path_segment (tree_key c) := resolved c ]})
                    children))
  end.

(** [encodes n t]: the JSON node [n] is the tree [t].  A leaf has a
    value and no [nodes] member; a directory has a true [dir] member and
    a non-empty list of [nodes].  Other members (indices, TTL) are
    allowed. *)
Inductive encodes : pyval → conf_tree → Prop :=
| encodes_leaf (d : dict) key value :
    d !! "key" = Some (PStr key) →
    d !! "value" = Some value →
    d !! "nodes" = None →
    encodes (PDict d) (Leaf key value)
| encodes_dir (d : dict) key ns children :
    d !! "key" = Some (PStr key) →
    d !! "dir" = Some (PBool true) →
    d !! "nodes" = Some (PList ns) →
    ns ≠ [] →
    Forall2 encodes ns children →
    encodes (PDict d) (Dir key children).

(** *** Request entries *)

(** The two documented shapes of an entry. *)
Definition well_formed_entry (e : entry) : Prop :=
  (∃ s, e = Obj (PStr s)) ∨ (∃ name alias, e = Tuple [name; alias]).

(** The name an entry asks for (the empty string for a malformed one). *)
Definition entry_name (e : entry) : string :=
  match _build_tuple e with
  | Ok na => na.1
  | Raise _ => ""
  end.

(** * A sample store

    The contents used by the examples: a service with two replicas, a
    service with a defective leaf, a three-level configuration tree and
    a configuration tree holding an empty directory.  Every other key
    gets etcd's "key not found" body, which has no [node] member. *)

Definition leaf (key value : string) : pyval :=
  PDict {[ "key" := PStr key; "value" := PStr value;
           "modifiedIndex" := PInt 7; "createdIndex" := PInt 7 ]}.

Definition directory (key : string) (nodes : list pyval) : pyval :=
  PDict {[ "key" := PStr key; "dir" := PBool true; "nodes" := PList nodes ]}.

Definition empty_directory (key : string) : pyval :=
  PDict {[ "key" := PStr key; "dir" := PBool true ]}.

Definition response (node : pyval) : pyval :=
  PDict {[ "action" := PStr "get"; "node" := node ]}.

Definition not_found : pyval :=
  PDict {[ "errorCode" := PInt 100; "message" := PStr "Key not found" ]}.

Definition mongo_leaves : list pyval :=
  [leaf "/backends/mongo/r1" "10.0.0.1:27017";
   leaf "/backends/mongo/r2" "10.0.0.2:27018"].

Definition mongo_node : pyval := directory "/backends/mongo" mongo_leaves.

Definition redis_node : pyval :=
  directory "/backends/redis"
    [leaf "/backends/redis/r1" "10.0.1.1:6379";
     leaf "/backends/redis/r2" "10.0.1.2"].

Definition backup_node : pyval :=
  directory "/backends/backup" [leaf "/backends/backup/b1" "10.0.0.9:27017"].

Definition app_node : pyval :=
  directory "/project-conf/app"
    [directory "/project-conf/app/a"
       [directory "/project-conf/app/a/b"
          [leaf "/project-conf/app/a/b/c" "v"]]].

Definition app_tree : conf_tree :=
  Dir "/project-conf/app"
    [Dir "/project-conf/app/a"
       [Dir "/project-conf/app/a/b"
          [Leaf "/project-conf/app/a/b/c" (PStr "v")]]].

Definition hollow_node : pyval :=
  directory "/project-conf/hollow"
    [leaf "/project-conf/hollow/x" "1";
     empty_directory "/project-conf/hollow/empty"].

Definition sample_store : store := fun url =>
  if String.eqb url "http://etcd:2379/v2/keys/backends/mongo"
  then Ok (response mongo_node)
  else if String.eqb url "http://etcd:2379/v2/keys/backends/redis"
  then Ok (response redis_node)
  else if String.eqb url "http://etcd:2379/v2/keys/backends/backup"
  then Ok (response backup_node)
  else if String.eqb url "http://etcd:2379/v2/keys/project-conf/app?recursive=true"
  then Ok (response app_node)
  else if String.eqb url "http://etcd:2379/v2/keys/project-conf/hollow?recursive=true"
  then Ok (response hollow_node)
  else Ok not_found.

(** The same store after the [mongo] service moved to another host. *)
Definition moved_store : store := fun url =>
  if String.eqb url "http://etcd:2379/v2/keys/backends/mongo"
  then Ok (response (directory "/backends/mongo"
                       [leaf "/backends/mongo/r3" "10.0.9.9:27017"]))
  else sample_store url.

Definition mongo_endpoints : list endpoint :=
  [Endpoint "/backends/mongo/r1" "10.0.0.1" "27017" 27017;
   Endpoint "/backends/mongo/r2" "10.0.0.2" "27018" 27018].

Definition endpoint_at (host : string) (port : Z) : pyval :=
  PDict {[ "host" := PStr host; "port" := PInt port ]}.

(** What [info] gathers for the service [mongo] from [sample_store] and
    from [moved_store]. *)
Definition mongo_bundle : dict :=
  {[ "services" :=
       PDict {[ "mongo" :=
                  PDict {[ "r1" := endpoint_at "10.0.0.1" 27017;
                           "r2" := endpoint_at "10.0.0.2" 27018 ]} ]} ]}.

Definition moved_bundle : dict :=
  {[ "services" :=
       PDict {[ "mongo" :=
                  PDict {[ "r3" := endpoint_at "10.0.9.9" 27017 ]} ]} ]}.

(** The replica identifiers a bundle lists for a service alias. *)
Definition replicas_of (bundle : dict) (alias : string) : list string :=
  match bundle !! "services" with
  | Some (PDict services) =>
      match services !! alias with
      | Some (PDict replicas) => (map_to_list replicas).*1
      | _ => []
      end
  | _ => []
  end.

(** The store of the end-to-end example: one [mongo] replica and the
    configuration [app] with the single value [x]. *)
Definition small_store : store := fun url =>
  if String.eqb url "http://etcd:2379/v2/keys/backends/mongo"
  then Ok (response (directory "/backends/mongo"
                       [leaf "/backends/mongo/r1" "10.0.0.1:27017"]))
  else if String.eqb url "http://etcd:2379/v2/keys/project-conf/app?recursive=true"
  then Ok (response (directory "app" [leaf "app/x" "1"]))
  else Ok not_found.

Definition small_bundle : dict :=
  {[ "services" :=
       PDict {[ "db" := PDict {[ "r1" := endpoint_at "10.0.0.1" 27017 ]} ]};
     "cfg" := PDict {[ "x" := PStr "1" ]} ]}.


(** * The script and further vocabulary *)

(** The block run when the module is executed as a script: the first
    command-line argument is the etcd URL; one service lookup, one
    configuration lookup and one [info] call follow, their results
    being discarded. *)
Definition main (st : store) (argv : list string)
    (_cached_result : gmap string dict) : io unit * gmap string dict :=
  match py_index argv 1 with
  | Raise e => ((Raise e, []), _cached_result)
  | Ok the_url =>
      match (let! _ := get_service st the_url "mongo-production" "mongo" in
             let! _ := get_conf st the_url "yunkai-dev" "yunkai" in
             io_ret tt) with
      | (Raise e, t) => ((Raise e, t), _cached_result)
      | (Ok _, t) =>
          let '((r, t'), cache) :=
            info st the_url
              (Some [Tuple ["redis-main"; "redis"];
                     Tuple ["mongo-production"; "mongo"];
                     Obj (PStr "nexus"); Obj (PStr "fake")])
              (Some [Tuple ["yunkai-dev"; "yunkai"];
                     Obj (PStr "smscenter"); Obj (PStr "fake")])
              None false _cached_result in
          ((let* _ := r in Ok tt, (t ++ t')%list), cache)
      end
  end.

(** The URLs the script asks for when every lookup completes. *)
Definition main_urls (the_url : string) : list string :=
  [service_url the_url "mongo-production"; conf_url the_url "yunkai-dev";
   service_url the_url "redis-main"; service_url the_url "mongo-production";
   service_url the_url "nexus"; service_url the_url "fake";
   conf_url the_url "yunkai-dev"; conf_url the_url "smscenter";
   conf_url the_url "fake"].

(** The URLs of a request: one per service entry, then one per
    configuration entry, in list order. *)
Definition request_urls (etcd_url : string)
    (service_names conf_names : option (list entry)) : list string :=
  (((service_url etcd_url ∘ entry_name) <$> default [] service_names) ++
   ((conf_url etcd_url ∘ entry_name) <$> default [] conf_names))%list.

(** A bare string written as the pair it stands for. *)
Definition as_pair (e : entry) : entry :=
  match e with
  | Obj (PStr s) => Tuple [s; s]
  | _ => e
  end.

Definition as_pairs (names : option (list entry)) : option (list entry) :=
  match names with
  | Some l => Some (as_pair <$> l)
  | None => None
  end.

Definition is_dict (v : pyval) : bool :=
  match v with PDict _ => true | _ => false end.

Definition is_text (v : pyval) : bool :=
  match v with PStr _ => true | _ => false end.


(** A store that gives the same answer for every URL. *)
Definition const_store (answer : result pyval) : store := fun _ => answer.

(** A listing in which two leaves carry the same last path segment. *)
Definition twin_leaves : list pyval :=
  [leaf "/backends/twin/a/r1" "10.0.0.1:27017";
   leaf "/backends/twin/b/r1" "10.0.0.2:27018"].

Definition twin_endpoints : list endpoint :=
  [Endpoint "/backends/twin/a/r1" "10.0.0.1" "27017" 27017;
   Endpoint "/backends/twin/b/r1" "10.0.0.2" "27018" 27018].

(** A node counts as a directory with children when its [dir] member
    and its [nodes] member are both present and true. *)
Definition has_children (d : dict) : bool :=
  match d !! "dir", d !! "nodes" with
  | Some flag, Some nodes => py_truthy flag && py_truthy nodes
  | _, _ => false
  end.

(** A node with [nodes] and a value but no [dir] flag. *)
Definition flagless : dict :=
  {[ "key" := PStr "/project-conf/p"; "nodes" := PList [PInt 1];
     "value" := PStr "v" ]}.

Definition empty_p : dict :=
  {[ "key" := PStr "/project-conf/p"; "dir" := PBool true ]}.

(** * Properties *)

(** ** The Python fragment on examples *)

Example split_on_value :
  split_on ":" "192.168.100.2:31001" = ["192.168.100.2"; "31001"].
Proof. reflexivity. Qed.

Example split_on_key :
  split_on "/" "/backends/mongo/ec6f" = [""; "backends"; "mongo"; "ec6f"].
Proof. reflexivity. Qed.

Example py_int_examples :
  py_int "31001" = Ok 31001 ∧ py_int " -7 " = Ok (-7) ∧
  py_int "" = Raise ValueError ∧ py_int "80a" = Raise ValueError ∧
  py_int "- 7" = Raise ValueError.
Proof. repeat split; reflexivity. Qed.

Example py_index_examples :
  py_index ["a"; "b"] (-1) = Ok "b" ∧ py_index ["a"] 1 = Raise IndexError.
Proof. split; reflexivity. Qed.

(** The end-to-end example: one service under the alias [db] and one
    configuration under the alias [cfg]. *)
Example info_end_to_end :
  info small_store "http://etcd:2379" (Some [Tuple ["mongo"; "db"]])
    (Some [Tuple ["app"; "cfg"]]) None false ∅ =
    ((Ok small_bundle,
      ["http://etcd:2379/v2/keys/backends/mongo";
       "http://etcd:2379/v2/keys/project-conf/app?recursive=true"]), ∅).
Proof. vm_compute. reflexivity. Qed.

(** ** The cache *)

Lemma cache_hit_not_given ck fr (cache : gmap string dict) :
  key_given ck = false → cache_hit ck fr cache = None.
Proof.
  unfold key_given, cache_hit. destruct fr; [done|].
  destruct ck as [k|]; [|done]. by intros ->.
Qed.

Lemma info_hit st url sn cn ck fr (cache : gmap string dict) b :
  cache_hit ck fr cache = Some b →
  info st url sn cn ck fr cache = ((Ok b, []), cache).
Proof. unfold info. by intros ->. Qed.

Lemma info_miss st url sn cn ck fr (cache : gmap string dict) :
  cache_hit ck fr cache = None →
  info st url sn cn ck fr cache =
    (gather st url sn cn,
     match (gather st url sn cn).1 with
     | Ok b => if key_given ck then <[default "" ck := b]> cache else cache
     | Raise _ => cache
     end).
Proof.
  unfold info. intros ->. destruct (gather st url sn cn) as [[b|e] t]; [|done].
  simpl. destruct ck as [k|]; simpl; [|done]. by destruct (negb _).
Qed.

(** ** The recursion of [build_conf] *)

Lemma height_lookup (d : dict) k v :
  d !! k = Some v → (height v < height (PDict d))%nat.
Proof.
  intros Hk. simpl.
  rewrite (map_fold_delete_L _ _ k v d); [cbv beta; lia | intros; lia | done].
Qed.

Lemma height_elem (l : list pyval) n :
  n ∈ l → (height n < height (PList l))%nat.
Proof.
  simpl. induction 1 as [|? ? ? ? IH]; simpl; lia.
Qed.

Lemma height_chars s n : n ∈ chars s → height n = 0%nat.
Proof.
  induction s as [|a s IH]; simpl; [by intros ?%elem_of_nil|].
  intros [->|?]%elem_of_cons; auto.
Qed.

Lemma height_member node nodes ns n :
  py_getitem node "nodes" = Ok nodes → py_iter nodes = Ok ns → n ∈ ns →
  (height n < height node)%nat.
Proof.
  destruct node as [| | | | |d]; try done. unfold py_getitem.
  destruct (d !! "nodes") as [x|] eqn:Hd; [|done].
  intros [= ->] Hit Hn. pose proof (height_lookup _ _ _ Hd) as Hlt.
  destruct nodes as [| | |s|l|d']; try done; simpl in Hit; simplify_eq.
  - apply height_chars in Hn. lia.
  - apply height_elem in Hn. lia.
  - apply list_elem_of_fmap in Hn as (? & -> & _). change (height (PStr _)) with 0%nat. lia.
Qed.

Lemma foldl_r_ext {A B} (f g : B → A → result B) l b :
  (∀ x b', x ∈ l → f b' x = g b' x) → foldl_r f b l = foldl_r g b l.
Proof.
  revert b. induction l as [|x l IH]; intros b Hfg; [done|]. simpl.
  rewrite Hfg by left. destruct (g b x); simpl; [|done].
  apply IH. intros. apply Hfg. by right.
Qed.

Lemma build_conf_body_ext (b1 b2 : pyval → result (option dict)) node a :
  (∀ n, (height n < height node)%nat → b1 n = b2 n) →
  build_conf_body b1 node a = build_conf_body b2 node a.
Proof.
  intros Hb. unfold build_conf_body.
  destruct (current_key_of node a) as [key|]; simpl; [|done].
  destruct (is_nonempty_dir node) as [[]|]; simpl; try done.
  destruct (py_getitem node "nodes") as [nodes|] eqn:Hn; simpl; [|done].
  destruct (py_iter nodes) as [ns|] eqn:Hit; simpl; [|done].
  erewrite foldl_r_ext; [done|].
  intros n m Hin. simpl. by rewrite (Hb n) by eauto using height_member.
Qed.

Lemma build_conf_rec_enough b1 b2 node a :
  (height node < b1)%nat → (height node < b2)%nat →
  build_conf_rec b1 node a = build_conf_rec b2 node a.
Proof.
  revert b2 node a. induction b1 as [|b1 IH]; intros [|b2] node a ??; try lia.
  simpl. apply build_conf_body_ext. intros n Hn. apply IH; lia.
Qed.

(** [build_conf] satisfies the equation that is its Python text. *)
Lemma build_conf_unfold node a :
  build_conf node a = build_conf_body (fun n => build_conf n None) node a.
Proof.
  unfold build_conf at 1. simpl. apply build_conf_body_ext.
  intros n Hn. unfold build_conf. apply build_conf_rec_enough; lia.
Qed.

(** The depth budget is never the reason for an exception: [build_conf]
    does not raise [RuntimeError]. *)
Lemma bind_r_not {A B} (c : result A) (k : A → result B) e :
  c ≠ Raise e → (∀ a, k a ≠ Raise e) → bind_r c k ≠ Raise e.
Proof.
  destruct c as [a|e']; simpl; [auto|]. intros H _ [= ->]. by apply H.
Qed.

Lemma py_getitem_no_runtime v k : py_getitem v k ≠ Raise RuntimeError.
Proof. unfold py_getitem. by repeat case_match. Qed.

Lemma py_contains_no_runtime k v : py_contains k v ≠ Raise RuntimeError.
Proof. unfold py_contains. by repeat case_match. Qed.

Lemma py_iter_no_runtime v : py_iter v ≠ Raise RuntimeError.
Proof. unfold py_iter. by repeat case_match. Qed.

Lemma py_index_no_runtime {A} (l : list A) i : py_index l i ≠ Raise RuntimeError.
Proof. unfold py_index. by repeat case_match. Qed.

Lemma current_key_of_no_runtime node a :
  current_key_of node a ≠ Raise RuntimeError.
Proof.
  assert ((let* k := py_getitem node "key" in
           let* segments := py_split k "/" in py_index segments (-1))
          ≠ Raise RuntimeError) as H.
  { apply bind_r_not; [apply py_getitem_no_runtime|]. intros k.
    apply bind_r_not; [by destruct k|]. intros. apply py_index_no_runtime. }
  unfold current_key_of. by repeat case_match.
Qed.

Lemma is_nonempty_dir_no_runtime node :
  is_nonempty_dir node ≠ Raise RuntimeError.
Proof.
  unfold is_nonempty_dir, py_and, truth_of.
  repeat (apply bind_r_not;
          [first [apply py_contains_no_runtime | apply py_getitem_no_runtime
                 | idtac]
          |intros []; try done]).
  all: try (apply bind_r_not; [apply py_getitem_no_runtime|done]).
Qed.

Lemma foldl_r_not {A B} (f : B → A → result B) l b e :
  (∀ x b', x ∈ l → f b' x ≠ Raise e) → foldl_r f b l ≠ Raise e.
Proof.
  revert b. induction l as [|x l IH]; intros b Hf; [done|]. simpl.
  apply bind_r_not; [apply Hf; by left|]. intros b'. apply IH.
  intros. apply Hf. by right.
Qed.

Lemma build_conf_rec_no_runtime budget node a :
  (height node < budget)%nat →
  build_conf_rec budget node a ≠ Raise RuntimeError.
Proof.
  revert node a. induction budget as [|budget IH]; intros node a Hb; [lia|].
  simpl. unfold build_conf_body.
  apply bind_r_not; [apply current_key_of_no_runtime|]. intros key.
  apply bind_r_not; [apply is_nonempty_dir_no_runtime|]. intros [].
  - destruct (py_getitem node "nodes") as [nodes|e] eqn:Hn; simpl;
      [|by pose proof (py_getitem_no_runtime node "nodes"); congruence].
    destruct (py_iter nodes) as [ns|e] eqn:Hit; simpl;
      [|by pose proof (py_iter_no_runtime nodes); congruence].
    apply bind_r_not; [|done]. apply foldl_r_not. intros n m Hin.
    apply bind_r_not; [|by intros []].
    apply IH. pose proof (height_member _ _ _ _ Hn Hit Hin). lia.
  - apply bind_r_not; [apply py_contains_no_runtime|]. intros []; [|done].
    apply bind_r_not; [apply py_getitem_no_runtime|done].
Qed.

Lemma build_conf_no_runtime node a : build_conf node a ≠ Raise RuntimeError.
Proof. apply build_conf_rec_no_runtime. lia. Qed.

(** ** Text *)

Lemma split_on_not_nil c s : split_on c s ≠ [].
Proof.
  destruct s as [|a s]; simpl; [done|].
  destruct (Ascii.eqb a c); [done|]. by destruct (split_on c s).
Qed.

Lemma split_on_absent c s : occurs c s = false → split_on c s = [s].
Proof.
  induction s as [|a s IH]; simpl; [done|].
  intros [Ha Hs]%orb_false_iff. rewrite Ha. by rewrite IH.
Qed.

Lemma split_on_first c h t :
  occurs c h = false → split_on c (h ++ String c t) = h :: split_on c t.
Proof.
  induction h as [|a h IH]; simpl.
  - intros _. by rewrite Ascii.eqb_refl.
  - intros [Ha Hh]%orb_false_iff. rewrite Ha. by rewrite IH.
Qed.

Lemma split_on_sep c p s :
  ∃ h t, split_on c (p ++ String c s) = ((h :: t) ++ split_on c s)%list.
Proof.
  induction p as [|a p (h & t & IH)]; simpl.
  - rewrite Ascii.eqb_refl. by exists "", [].
  - rewrite IH. destruct (Ascii.eqb a c).
    + by exists "", (h :: t).
    + by exists (String a h), t.
Qed.

(** The last path segment is the text after the last slash. *)
Lemma last_path_segment_plain s :
  occurs "/" s = false → last_path_segment s = s.
Proof. intros H. unfold last_path_segment. by rewrite split_on_absent. Qed.

Lemma last_path_segment_app p s :
  occurs "/" s = false → last_path_segment (p ++ String "/" s) = s.
Proof.
  intros Hs. unfold last_path_segment.
  destruct (split_on_sep "/" p s) as (h & t & ->).
  rewrite split_on_absent by done. by rewrite List.last_last.
Qed.

Lemma py_index_nat {A} (l : list A) (i : nat) :
  py_index l (Z.of_nat i) =
    match l !! i with Some x => Ok x | None => Raise IndexError end.
Proof.
  unfold py_index. cbv zeta.
  assert ((Z.of_nat i <? 0) = false) as Hi by (apply Z.ltb_ge; lia).
  rewrite Hi. cbv iota. rewrite Hi. simpl orb.
  rewrite Nat2Z.id.
  destruct (Z.leb_spec (Z.of_nat (List.length l)) (Z.of_nat i)) as [Hle|Hlt]; simpl.
  - rewrite lookup_ge_None_2; [done|]. lia.
  - done.
Qed.

Lemma py_index_last {A} (l : list A) (d : A) :
  l ≠ [] → py_index l (-1) = Ok (List.last l d).
Proof.
  intros Hl. unfold py_index. cbv zeta. simpl (-1 <? 0). cbv iota.
  destruct l as [|x l] using rev_ind; [done|]. clear IHl.
  rewrite List.last_last, List.length_app. simpl.
  assert ((Z.of_nat (List.length l + 1) + -1 <? 0) = false) as ->
    by (apply Z.ltb_ge; lia).
  assert ((Z.of_nat (List.length l + 1) <=? Z.of_nat (List.length l + 1) + -1) = false)
    as -> by (apply Z.leb_gt; lia).
  simpl. replace (Z.to_nat _) with (List.length l + 0)%nat by lia.
  by rewrite lookup_app_r, Nat.add_0_r, Nat.sub_diag by lia.
Qed.

Lemma py_index_last_segment k :
  py_index (split_on "/" k) (-1) = Ok (last_path_segment k).
Proof. apply py_index_last, split_on_not_nil. Qed.

(** An integer literal holds no colon. *)
Lemma is_blank_not_colon a : is_blank a = true → Ascii.eqb a ":" = false.
Proof.
  destruct (Ascii.eqb_spec a ":") as [->|]; [|done]. by vm_compute.
Qed.

Lemma all_blank_no_colon s : all_blank s = true → occurs ":" s = false.
Proof.
  induction s as [|a s IH]; simpl; [done|].
  intros [Ha Hs]%andb_true_iff. by rewrite is_blank_not_colon, IH.
Qed.

Lemma digits_no_colon seen acc s z :
  digits seen acc s = Some z → occurs ":" s = false.
Proof.
  revert seen acc. induction s as [|a s IH]; intros seen acc; simpl; [done|].
  destruct (digit_of a) as [d|] eqn:Hd.
  - intros Hz. rewrite (IH _ _ Hz).
    destruct (Ascii.eqb_spec a ":") as [->|]; [|done]. by vm_compute in Hd.
  - destruct seen; simpl; [|done].
    destruct (is_blank a && all_blank s) eqn:Hb; [|done]. intros _.
    apply (all_blank_no_colon (String a s)). done.
Qed.

Lemma lstrip_no_colon s : occurs ":" (lstrip s) = false → occurs ":" s = false.
Proof.
  induction s as [|a s IH]; simpl; [done|].
  destruct (is_blank a) eqn:Ha; [|done].
  intros H. by rewrite is_blank_not_colon, IH.
Qed.

Lemma py_int_no_colon s z : py_int s = Ok z → occurs ":" s = false.
Proof.
  unfold py_int. intros H. apply lstrip_no_colon.
  destruct (lstrip s) as [|a s'] eqn:Hs; [done|].
  assert (∀ o : option Z, match o with Some z => Ok z | None => Raise ValueError end = Ok z
            → o = Some z) as Hinv by (intros [?|]; naive_solver).
  apply Hinv in H.
  destruct (Ascii.eqb_spec a "-") as [->|Hm].
  { destruct (digits false 0 s') eqn:Hd; [|done].
    simpl. eauto using digits_no_colon. }
  destruct (Ascii.eqb_spec a "+") as [->|Hp].
  { simpl. eauto using digits_no_colon. }
  assert (digits false 0 (String a s') = Some z) as Hd.
  { revert H. destruct a as [[] [] [] [] [] [] [] []]; try done. }
  eauto using digits_no_colon.
Qed.

(** [py_int] returns an integer on text of blanks, signs and digits
    only: on plain ASCII, and never past a character that no integer
    literal holds. *)
Lemma literal_char_plain a : literal_char a = true → plain_char a = true.
Proof. destruct a as [[] [] [] [] [] [] [] []]; by vm_compute. Qed.


Lemma is_blank_literal a : is_blank a = true → literal_char a = true.
Proof. intros Ha. unfold literal_char. by rewrite Ha. Qed.

Lemma digit_literal a d : digit_of a = Some d → literal_char a = true.
Proof.
  intros Ha. unfold literal_char. rewrite Ha.
  rewrite bool_decide_eq_true_2 by eauto. by rewrite orb_true_r.
Qed.

Lemma all_blank_literal s : all_blank s = true → literal_text s = true.
Proof.
  induction s as [|a s IH]; simpl; [done|].
  intros [Ha Hs]%andb_true_iff. by rewrite is_blank_literal, IH.
Qed.

Lemma digits_literal seen acc s z :
  digits seen acc s = Some z → literal_text s = true.
Proof.
  revert seen acc. induction s as [|a s IH]; intros seen acc; simpl; [done|].
  destruct (digit_of a) as [d|] eqn:Hd.
  - intros Hz. by rewrite (digit_literal a d Hd), (IH _ _ Hz).
  - destruct seen; simpl; [|done].
    destruct (is_blank a && all_blank s) eqn:Hb; [|done]. intros _.
    by apply (all_blank_literal (String a s)).
Qed.

Lemma lstrip_literal s : literal_text (lstrip s) = true → literal_text s = true.
Proof.
  induction s as [|a s IH]; simpl; [done|].
  destruct (is_blank a) eqn:Ha; [|done].
  intros H. by rewrite is_blank_literal, IH.
Qed.

Lemma py_int_ok_literal s z : py_int s = Ok z → literal_text s = true.
Proof.
  unfold py_int. intros H. apply lstrip_literal.
  destruct (lstrip s) as [|a s'] eqn:Hs; [done|].
  assert (∀ o : option Z,
            match o with Some z => Ok z | None => Raise ValueError end = Ok z
            → o = Some z) as Hinv by (intros [?|]; naive_solver).
  apply Hinv in H.
  destruct (Ascii.eqb_spec a "-") as [->|Hm].
  { destruct (digits false 0 s') eqn:Hd; [|done].
    simpl. eauto using digits_literal. }
  destruct (Ascii.eqb_spec a "+") as [->|Hp].
  { simpl. eauto using digits_literal. }
  assert (digits false 0 (String a s') = Some z) as Hd.
  { revert H. destruct a as [[] [] [] [] [] [] [] []]; try done. }
  eauto using digits_literal.
Qed.

Lemma py_int_ok_plain s z : py_int s = Ok z → plain_text s = true.
Proof.
  intros H%py_int_ok_literal. induction s as [|a s IH]; simpl in *; [done|].
  apply andb_true_iff in H as [Ha Hs]. by rewrite literal_char_plain, IH.
Qed.


(** ** [get_service] *)

Lemma get_service_trace st url name alias :
  (get_service st url name alias).2 = [service_url url name].
Proof.
  unfold get_service, requests_get_json, try_except, io_bind, lift.
  destruct (st (service_url url name)) as [data|e]; simpl.
  - destruct (let* node := py_getitem data "node" in _) as [r|e]; [done|].
    by destruct e.
  - by destruct e.
Qed.

Lemma get_service_eval st url name alias resp node nodes :
  st (service_url url name) = Ok resp →
  py_getitem resp "node" = Ok node →
  py_getitem node "nodes" = Ok nodes →
  get_service st url name alias =
    (match py_map get_service_entry nodes with
     | Ok entries => Ok (Some {[ alias := PDict (py_dict entries) ]})
     | Raise e => if handled e then Ok None else Raise e
     end, [service_url url name]).
Proof.
  intros Hst Hnode Hnodes.
  unfold get_service, requests_get_json, try_except, io_bind, lift.
  rewrite Hst. simpl. rewrite Hnode. simpl. rewrite Hnodes. simpl.
  destruct (py_map get_service_entry nodes) as [entries|e]; simpl; [done|].
  by destruct e.
Qed.

(** A successful service lookup is a one-key mapping under the alias. *)
Lemma get_service_some st url name alias (d : dict) :
  (get_service st url name alias).1 = Ok (Some d) →
  ∃ replicas : dict, d = {[ alias := PDict replicas ]}.
Proof.
  unfold get_service, requests_get_json, try_except, io_bind, lift.
  destruct (st (service_url url name)) as [data|e]; simpl.
  - destruct (py_getitem data "node") as [node|e]; simpl.
    + destruct (py_getitem node "nodes") as [nodes|e]; simpl.
      * destruct (py_map get_service_entry nodes) as [entries|e]; simpl.
        -- intros [= <-]. eauto.
        -- by destruct e.
      * by destruct e.
    + by destruct e.
  - by destruct e.
Qed.

Lemma get_service_entry_good (d : dict) e :
  well_formed_leaf (PDict d) e →
  get_service_entry (PDict d) = Ok (replica_id e, endpoint_value e).
Proof.
  intros (d' & [= <-] & Hkey & Hval & Hhost & Hport).
  unfold get_service_entry. simpl. rewrite Hkey, Hval. simpl.
  rewrite py_index_last_segment. simpl.
  change (ep_host e ++ ":" ++ ep_port_text e)
    with (ep_host e ++ String ":" (ep_port_text e)).
  rewrite split_on_first by done.
  rewrite split_on_absent by eauto using py_int_no_colon.
  change 1 with (Z.of_nat 1). change 0 with (Z.of_nat 0).
  rewrite !py_index_nat. simpl. by rewrite Hport.
Qed.




Lemma map_r_good {A B C} (f : A → result B) (R : A → C → Prop) (g : C → B) l cs :
  (∀ a c, R a c → f a = Ok (g c)) →
  Forall2 R l cs → map_r f l = Ok (g <$> cs).
Proof.
  intros Hf. induction 1 as [|a c l cs HR _ IH]; [done|].
  simpl. by rewrite (Hf a c HR), IH.
Qed.

Lemma py_dict_rev pairs : py_dict pairs = list_to_map (reverse pairs).
Proof.
  unfold py_dict. induction pairs as [|[k v] l IH] using rev_ind; [done|].
  by rewrite foldl_app, reverse_app, IH.
Qed.

Lemma py_dict_size pairs :
  NoDup pairs.*1 → size (py_dict pairs) = List.length pairs.
Proof.
  intros Hnd. rewrite py_dict_rev, map_size_list_to_map, length_reverse; [done|].
  by rewrite fmap_reverse, reverse_Permutation.
Qed.

Lemma py_dict_lookup pairs k v :
  NoDup pairs.*1 → (k, v) ∈ pairs → py_dict pairs !! k = Some v.
Proof.
  intros Hnd Hin. rewrite py_dict_rev. apply elem_of_list_to_map.
  - by rewrite fmap_reverse, reverse_Permutation.
  - by apply elem_of_reverse.
Qed.




(** C4.  On a directory whose [N] children are well-formed leaves
    ([host:port] values with an integer port) with pairwise distinct
    names, the lookup returns a map with the alias as its only key;
    under it there are exactly [N] replicas, each keyed by the last path
    segment of its leaf's key, with the host taken before the first
    colon and the port as the parsed integer. *)
Theorem get_service_well_formed
    st url name alias (resp node : dict) ns eps :
  st (service_url url name) = Ok (PDict resp) →
  resp !! "node" = Some (PDict node) →
  node !! "nodes" = Some (PList ns) →
  Forall2 well_formed_leaf ns eps →
  NoDup (replica_id <$> eps) →
  ∃ replicas : dict,
    get_service st url name alias =
      (Ok (Some {[ alias := PDict replicas ]}), [service_url url name]) ∧
    size replicas = List.length ns ∧
    ∀ e, e ∈ eps → replicas !! replica_id e = Some (endpoint_value e).
Proof.
  intros Hst Hnode Hnodes Hwf Hnd.
  set (pairs := (fun e => (replica_id e, endpoint_value e)) <$> eps).
  assert (pairs.*1 = replica_id <$> eps) as Hkeys.
  { unfold pairs. rewrite <- list_fmap_compose. done. }
  exists (py_dict pairs). split; [|split].
  - rewrite (get_service_eval st url name alias (PDict resp) (PDict node) (PList ns));
      [|done|by simpl; rewrite Hnode|by simpl; rewrite Hnodes].
    unfold py_map. simpl.
    rewrite (map_r_good get_service_entry well_formed_leaf
               (fun e => (replica_id e, endpoint_value e)) ns eps); [done| |done].
    intros n e Hne. destruct Hne as (d & -> & ?).
    apply get_service_entry_good. by exists d.
  - rewrite py_dict_size by by rewrite Hkeys.
    unfold pairs. rewrite length_fmap. symmetry. by eapply Forall2_length.
  - intros e He. apply py_dict_lookup; [by rewrite Hkeys|].
    unfold pairs. apply list_elem_of_fmap. by exists e.
Qed.

Lemma get_service_well_formed_witness :
  ∃ replicas : dict,
    get_service sample_store "http://etcd:2379" "mongo" "db" =
      (Ok (Some {[ "db" := PDict replicas ]}),
       [service_url "http://etcd:2379" "mongo"]) ∧
    size replicas = List.length mongo_leaves ∧
    ∀ e, e ∈ mongo_endpoints →
         replicas !! replica_id e = Some (endpoint_value e).
Proof.
  eapply (get_service_well_formed sample_store "http://etcd:2379" "mongo" "db"
            _ _ mongo_leaves mongo_endpoints).
  - reflexivity.
  - reflexivity.
  - reflexivity.
  - repeat constructor; eexists; repeat split; reflexivity.
  - apply (bool_decide_unpack _). vm_compute. exact I.
Defined.


(** ** [get_conf] *)

Lemma conf_tree_nested_ind (P : conf_tree → Prop) :
  (∀ key value, P (Leaf key value)) →
  (∀ key children, Forall P children → P (Dir key children)) →
  ∀ t, P t.
Proof.
  intros Hleaf Hdir. fix IH 1. intros [key value|key children].
  - apply Hleaf.
  - apply Hdir. induction children as [|c cs IHcs]; constructor.
    + apply IH.
    + apply IHcs.
Qed.

Lemma merge_dicts_snoc l d : merge_dicts (l ++ [d]) = d ∪ merge_dicts l.
Proof. unfold merge_dicts. by rewrite foldl_app. Qed.

Lemma build_children_merge (build : pyval → result (option dict))
    (single : conf_tree → dict) ns children (acc : dict) :
  Forall2 (fun n c => build n = Ok (Some (single c))) ns children →
  foldl_r (fun m n => let* r := build n in py_update m r) acc ns =
    Ok (foldl (fun m d => d ∪ m) acc (map single children)).
Proof.
  intros H. revert acc. induction H as [|n c ns cs Hn _ IH]; intros acc; [done|].
  simpl. rewrite Hn. simpl. apply IH.
Qed.

Lemma is_nonempty_dir_leaf (d : dict) :
  d !! "nodes" = None → is_nonempty_dir (PDict d) = Ok false.
Proof.
  intros Hn. unfold is_nonempty_dir, py_and, truth_of, py_contains, py_getitem.
  rewrite Hn. destruct (d !! "dir") as [x|]; [|done].
  cbn. by destruct (py_truthy x).
Qed.

Lemma is_nonempty_dir_dir (d : dict) ns :
  d !! "dir" = Some (PBool true) → d !! "nodes" = Some (PList ns) → ns ≠ [] →
  is_nonempty_dir (PDict d) = Ok true.
Proof.
  intros Hd Hn Hne. destruct ns as [|n ns]; [done|]. unfold is_nonempty_dir, py_and, truth_of, py_contains, py_getitem.
  by rewrite Hd, Hn.
Qed.

Lemma current_key_of_encodes n t :
  encodes n t → current_key_of n None = Ok (last_path_segment (tree_key t)).
Proof.
  intros Henc. inversion Henc as [d ? ? Hk|d ? ? ? Hk]; subst;
    unfold current_key_of; simpl; rewrite Hk; simpl;
    apply py_index_last_segment.
Qed.

(** A well-formed node resolves to the one-key mapping from its current
    key to its resolution. *)
Lemma build_conf_encodes t :
  ∀ n a key, encodes n t → current_key_of n a = Ok key →
    build_conf n a = Ok (Some {[ key := resolved t ]}).
Proof.
  induction t as [key value|key children IH] using conf_tree_nested_ind;
    intros n a ck Henc Hck;
    inversion Henc as [d ? ? Hk Hv Hn|d ? ns ? Hk Hd Hn Hne Hcs];
    simplify_eq; rewrite build_conf_unfold; unfold build_conf_body;
    rewrite Hck; simpl.
  - rewrite is_nonempty_dir_leaf by done. simpl.
    rewrite Hv. by rewrite bool_decide_eq_true_2 by eauto.
  - rewrite (is_nonempty_dir_dir d ns) by done. simpl. rewrite Hn. simpl.
    erewrite (build_children_merge _
      (fun c => {[ last_path_segment (tree_key c) := resolved c ]}));
      [done|].
    clear Hn Hne Henc. revert IH. induction Hcs as [|x c xs cs Hx _ IHcs];
      intros IH; [done|].
    apply Forall_cons in IH as [Hc Hcs']. constructor; [|auto].
    apply Hc; [done|]. by apply current_key_of_encodes.
Qed.

(** C7.  On a well-formed tree the configuration lookup returns a
    mapping whose only key is the caller's (non-empty) alias, not the
    store's key; under it a leaf resolves to its value and a non-empty
    directory to the shallow merge of the one-key resolutions of its
    children ([resolved]). *)
Theorem get_conf_well_formed st url name alias (resp : dict) node t :
  alias ≠ "" →
  st (conf_url url name) = Ok (PDict resp) →
  resp !! "node" = Some node →
  encodes node t →
  get_conf st url name alias =
    (Ok (Some {[ alias := resolved t ]}), [conf_url url name]).
Proof.
  intros Ha Hst Hnode Henc.
  unfold get_conf, requests_get_json, io_bind, lift. rewrite Hst. simpl.
  rewrite Hnode. rewrite bool_decide_eq_true_2 by eauto. simpl.
  rewrite (build_conf_encodes t node (Some alias) alias); [done|done|].
  unfold current_key_of. simpl. by destruct (String.eqb_spec alias "").
Qed.

Lemma get_conf_well_formed_witness :
  get_conf sample_store "http://etcd:2379" "app" "cfg" =
    (Ok (Some {[ "cfg" := resolved app_tree ]}),
     [conf_url "http://etcd:2379" "app"]) ∧
  resolved app_tree =
    PDict {[ "a" := PDict {[ "b" := PDict {[ "c" := PStr "v" ]} ]} ]}.
Proof.
  split; [|vm_compute; reflexivity].
  eapply (get_conf_well_formed sample_store "http://etcd:2379" "app" "cfg").
  - discriminate.
  - reflexivity.
  - reflexivity.
  - repeat (econstructor; try reflexivity; try discriminate).
Defined.

(** ** [info] *)

Lemma get_conf_trace st url name alias :
  (get_conf st url name alias).2 = [conf_url url name].
Proof.
  unfold get_conf, requests_get_json, io_bind, lift.
  destruct (st (conf_url url name)) as [data|e]; [|done].
  by destruct (let* has_node := py_contains "node" data in _).
Qed.

(** A successful configuration lookup under a non-empty alias is a
    one-key mapping under that alias. *)
Lemma get_conf_some st url name alias (d : dict) :
  alias ≠ "" →
  (get_conf st url name alias).1 = Ok (Some d) →
  ∃ v, d = {[ alias := v ]}.
Proof.
  intros Ha. unfold get_conf, requests_get_json, io_bind, lift.
  destruct (st (conf_url url name)) as [data|e]; [|done]. simpl.
  destruct (py_contains "node" data) as [[]|]; simpl; try done.
  destruct (py_getitem data "node") as [node|]; simpl; [|done].
  rewrite build_conf_unfold. unfold build_conf_body.
  assert (current_key_of node (Some alias) = Ok alias) as ->.
  { unfold current_key_of. simpl. by destruct (String.eqb_spec alias ""). }
  simpl. destruct (is_nonempty_dir node) as [[]|]; simpl; try done.
  - destruct (py_getitem node "nodes") as [nodes|]; simpl; [|done].
    destruct (py_iter nodes) as [ns|]; simpl; [|done].
    destruct (foldl_r _ ∅ ns) as [m|]; simpl; [|done].
    intros [= <-]. eauto.
  - destruct (py_contains "value" node) as [[]|]; simpl; try done.
    destruct (py_getitem node "value") as [v|]; simpl; [|done].
    intros [= <-]. eauto.
Qed.

Lemma io_map_app {A B} (f : A → io B) l1 l2 :
  io_map f (l1 ++ l2) =
    (let! ys1 := io_map f l1 in
     let! ys2 := io_map f l2 in io_ret (ys1 ++ ys2))%list.
Proof.
  induction l1 as [|x l1 IH]; simpl.
  - destruct (io_map f l2) as [[ys|e] t]; simpl; by rewrite ?app_nil_r.
  - rewrite IH. destruct (f x) as [[y|e] t]; simpl; [|done].
    destruct (io_map f l1) as [[ys1|e] t1]; simpl; [|done].
    destruct (io_map f l2) as [[ys2|e] t2]; simpl;
      by rewrite ?app_nil_r, ?app_assoc.
Qed.

(** The comprehension stops at the first entry whose step raises; the
    steps of the entries before it have been run. *)
Lemma io_map_raise {A B} (f : A → io B) pre x post ys t e :
  io_map f pre = (Ok ys, t) → f x = (Raise e, []) →
  io_map f (pre ++ x :: post) = (Raise e, t).
Proof.
  intros Hpre Hx. rewrite io_map_app, Hpre. simpl. rewrite Hx. simpl.
  by rewrite app_nil_r.
Qed.

Lemma io_map_trace {A B} (f : A → io B) (u : A → string) l ys t :
  (∀ x y tx, f x = (Ok y, tx) → tx = [u x]) →
  io_map f l = (Ok ys, t) → t = u <$> l.
Proof.
  intros Hf. revert ys t. induction l as [|x l IH]; intros ys t; simpl.
  - by intros [= _ <-].
  - destruct (f x) as [[y|e] tx] eqn:Hx; simpl; [|done].
    destruct (io_map f l) as [[ys'|e] tl] eqn:Hl; simpl; [|done].
    intros [= _ <-]. rewrite (Hf _ _ _ Hx), (IH _ _ eq_refl).
    by rewrite app_nil_r.
Qed.

Lemma build_tuple_malformed e :
  ¬ well_formed_entry e → _build_tuple e = Raise ValueError.
Proof.
  intros Hbad. destruct e as [t|v].
  - destruct t as [|name [|alias [|extra t]]]; try done.
    destruct Hbad. right. eauto.
  - destruct v; try done. destruct Hbad. left. eauto.
Qed.

Lemma lookup_step_ok f e na :
  _build_tuple e = Ok na → lookup_step f e = f na.1 na.2.
Proof.
  intros He. unfold lookup_step, lift, io_bind. rewrite He.
  by destruct (f na.1 na.2).
Qed.

Lemma lookup_step_malformed f e :
  ¬ well_formed_entry e → lookup_step f e = (Raise ValueError, []).
Proof.
  intros He. unfold lookup_step, lift, io_bind.
  by rewrite build_tuple_malformed.
Qed.

Lemma lookup_each_trace f (u : string → string) names found t :
  (∀ name alias, (f name alias).2 = [u name]) →
  lookup_each f names = (Ok found, t) →
  t = (u ∘ entry_name) <$> default [] names.
Proof.
  intros Hf. apply io_map_trace. intros e y tx.
  destruct (_build_tuple e) as [na|err] eqn:He.
  - rewrite (lookup_step_ok _ _ _ He). intros Hstep.
    pose proof (Hf na.1 na.2) as Htr. rewrite Hstep in Htr. simpl in Htr.
    unfold compose, entry_name. by rewrite He.
  - unfold lookup_step, lift, io_bind. by rewrite He.
Qed.

(** [gather] once both comprehensions have completed. *)
Lemma gather_ok st url sn cn found ts foundc tc :
  lookup_each (get_service st url) sn = (Ok found, ts) →
  lookup_each (get_conf st url) cn = (Ok foundc, tc) →
  gather st url sn cn =
    (Ok (merge_dicts (filter_truthy foundc) ∪
         {[ "services" := PDict (merge_dicts (filter_truthy found)) ]}),
     (ts ++ tc)%list).
Proof.
  intros Hs Hc. unfold gather, io_bind, io_ret. rewrite Hs, Hc.
  unfold merge_dicts at 1. simpl.
  by rewrite (right_id_L ∅ (∪)), !app_nil_r.
Qed.

(** C9.  [_build_tuple] returns [(name, name)] for a bare string, the
    pair itself for a two-element tuple, and raises [ValueError] for
    every other entry. *)
Theorem build_tuple_spec (val : entry) :
  (∀ s, val = Obj (PStr s) → _build_tuple val = Ok (s, s)) ∧
  (∀ name alias, val = Tuple [name; alias] →
                 _build_tuple val = Ok (name, alias)) ∧
  ((∀ s, val ≠ Obj (PStr s)) → (∀ name alias, val ≠ Tuple [name; alias]) →
   _build_tuple val = Raise ValueError).
Proof.
  split; [|split].
  - by intros s ->.
  - by intros name alias ->.
  - intros Hstr Htup. apply build_tuple_malformed.
    intros [[s ->]|(name & alias & ->)]; [by eapply Hstr|by eapply Htup].
Qed.

Lemma build_tuple_spec_witness :
  _build_tuple (Obj (PStr "mongo")) = Ok ("mongo", "mongo") ∧
  _build_tuple (Tuple ["mongo-production"; "mongo"]) =
    Ok ("mongo-production", "mongo") ∧
  _build_tuple (Tuple ["a"; "b"; "c"]) = Raise ValueError ∧
  _build_tuple (Obj (PList [PStr "a"; PStr "b"])) = Raise ValueError.
Proof.
  split; [|split; [|split]].
  - exact (proj1 (build_tuple_spec (Obj (PStr "mongo"))) "mongo" eq_refl).
  - exact (proj1 (proj2 (build_tuple_spec (Tuple ["mongo-production"; "mongo"])))
             "mongo-production" "mongo" eq_refl).
  - apply (proj2 (proj2 (build_tuple_spec (Tuple ["a"; "b"; "c"]))));
      intros; discriminate.
  - apply (proj2 (proj2 (build_tuple_spec (Obj (PList [PStr "a"; PStr "b"])))));
      intros; discriminate.
Defined.

(** C5, as the code has it.  When the call is not answered from the
    cache and the lookups of the entries before the first malformed
    entry complete, [info] raises [ValueError] on reaching that entry:
    the store has been asked for exactly the earlier entries (all
    services come before all configurations), not for the malformed
    entry nor any later one; nothing is returned and the cache is
    unchanged. *)
Theorem info_malformed_entry st url sn cn ck fr (cache : gmap string dict) :
  cache_hit ck fr cache = None →
  (∀ pre bad post found t,
     sn = Some (pre ++ bad :: post)%list →
     ¬ well_formed_entry bad →
     lookup_each (get_service st url) (Some pre) = (Ok found, t) →
     info st url sn cn ck fr cache = ((Raise ValueError, t), cache) ∧
     t = (service_url url ∘ entry_name) <$> pre) ∧
  (∀ found ts pre bad post foundc tc,
     lookup_each (get_service st url) sn = (Ok found, ts) →
     cn = Some (pre ++ bad :: post)%list →
     ¬ well_formed_entry bad →
     lookup_each (get_conf st url) (Some pre) = (Ok foundc, tc) →
     info st url sn cn ck fr cache = ((Raise ValueError, ts ++ tc)%list, cache) ∧
     ts = (service_url url ∘ entry_name) <$> default [] sn ∧
     tc = (conf_url url ∘ entry_name) <$> pre).
Proof.
  intros Hmiss. split.
  - intros pre bad post found t -> Hbad Hpre.
    assert (gather st url (Some (pre ++ bad :: post)%list) cn = (Raise ValueError, t))
      as Hg.
    { unfold gather, io_bind, lookup_each. simpl.
      by rewrite (io_map_raise _ pre bad post found t ValueError Hpre
                    (lookup_step_malformed _ _ Hbad)). }
    rewrite info_miss, Hg by done. split; [done|].
    eapply (lookup_each_trace _ (service_url url) (Some pre)); [|done].
    intros. apply get_service_trace.
  - intros found ts pre bad post foundc tc Hs -> Hbad Hpre.
    assert (gather st url sn (Some (pre ++ bad :: post)%list) =
              (Raise ValueError, (ts ++ tc)%list)) as Hg.
    { unfold gather, io_bind. rewrite Hs. unfold lookup_each. simpl.
      by rewrite (io_map_raise _ pre bad post foundc tc ValueError Hpre
                    (lookup_step_malformed _ _ Hbad)). }
    rewrite info_miss, Hg by done. split; [done|]. split.
    + eapply (lookup_each_trace _ (service_url url)); [|done].
      intros. apply get_service_trace.
    + eapply (lookup_each_trace _ (conf_url url) (Some pre)); [|done].
      intros. apply get_conf_trace.
Qed.

Lemma info_malformed_entry_witness :
  (info sample_store "http://etcd:2379"
     (Some [Obj (PStr "mongo"); Obj (PInt 42); Obj (PStr "redis")]) None
     None false ∅ =
     ((Raise ValueError, ["http://etcd:2379/v2/keys/backends/mongo"]), ∅) ∧
   ["http://etcd:2379/v2/keys/backends/mongo"] =
     (service_url "http://etcd:2379" ∘ entry_name) <$> [Obj (PStr "mongo")]) ∧
  (info sample_store "http://etcd:2379" (Some [Obj (PStr "redis")])
     (Some [Tuple ["app"; "cfg"]; Tuple ["a"; "b"; "c"]]) None false ∅).1 =
    (Raise ValueError,
     ["http://etcd:2379/v2/keys/backends/redis";
      "http://etcd:2379/v2/keys/project-conf/app?recursive=true"]).
Proof.
  split.
  - eapply (proj1 (info_malformed_entry sample_store "http://etcd:2379"
                     (Some [Obj (PStr "mongo"); Obj (PInt 42); Obj (PStr "redis")])
                     None None false ∅ eq_refl)
              [Obj (PStr "mongo")] (Obj (PInt 42)) [Obj (PStr "redis")]).
    + reflexivity.
    + intros [[s H]|(name & alias & H)]; discriminate H.
    + vm_compute. reflexivity.
  - apply (f_equal fst
             (y := ((Raise ValueError,
                     (["http://etcd:2379/v2/keys/backends/redis"] ++
                      ["http://etcd:2379/v2/keys/project-conf/app?recursive=true"])%list),
                    (∅ : gmap string dict)))).
    eapply proj1.
    eapply (proj2 (info_malformed_entry sample_store "http://etcd:2379"
                     (Some [Obj (PStr "redis")])
                     (Some [Tuple ["app"; "cfg"]; Tuple ["a"; "b"; "c"]])
                     None false ∅ eq_refl)
              _ _ [Tuple ["app"; "cfg"]] (Tuple ["a"; "b"; "c"]) []).
    + vm_compute. reflexivity.
    + reflexivity.
    + intros [[s H]|(name & alias & H)]; discriminate H.
    + vm_compute. reflexivity.
Defined.

(** C5 as stated fails: with a well-formed entry before the malformed
    one, the store has been asked for the first entry by the time
    [ValueError] is raised. *)
Lemma info_fetches_before_malformed_entry :
  (info sample_store "http://etcd:2379"
     (Some [Obj (PStr "mongo"); Obj (PInt 42)]) None None false ∅).1 =
    (Raise ValueError, ["http://etcd:2379/v2/keys/backends/mongo"]).
Proof. vm_compute. reflexivity. Qed.

(** C10.  Without a cache key ([None] or the empty string) the cache is
    neither read nor written: the outcome is that of [gather], which
    has no access to the cache, and the cache is returned as it was. *)
Theorem info_without_key st url sn cn ck fr (cache cache' : gmap string dict) :
  ck = None ∨ ck = Some "" →
  info st url sn cn ck fr cache = (gather st url sn cn, cache) ∧
  (info st url sn cn ck fr cache').1 = (info st url sn cn ck fr cache).1.
Proof.
  intros Hck.
  assert (key_given ck = false) as Hk by (by destruct Hck as [->| ->]).
  rewrite !info_miss by by apply cache_hit_not_given.
  rewrite Hk. split; [|done]. by destruct (gather st url sn cn).1.
Qed.

Lemma info_without_key_witness :
  info sample_store "http://etcd:2379" (Some [Obj (PStr "mongo")]) None
    (Some "") false {[ "" := ∅ ]} =
    (gather sample_store "http://etcd:2379" (Some [Obj (PStr "mongo")]) None,
     {[ "" := ∅ ]}) ∧
  (info sample_store "http://etcd:2379" (Some [Obj (PStr "mongo")]) None
     (Some "") false ∅).1 =
  (info sample_store "http://etcd:2379" (Some [Obj (PStr "mongo")]) None
     (Some "") false {[ "" := ∅ ]}).1.
Proof.
  apply (info_without_key sample_store "http://etcd:2379"
           (Some [Obj (PStr "mongo")]) None (Some "") false {[ "" := ∅ ]} ∅).
  right. reflexivity.
Defined.

Lemma key_given_nonempty k : k ≠ "" → py_truthy (PStr k) = true.
Proof. intros Hk. simpl. by destruct (String.eqb_spec k ""). Qed.

(** C3, as the code has it.  For a non-empty cache key: once a call
    with that key has returned a bundle, a call with the same key and
    [force_refresh=False] returns that bundle without asking the store
    (whatever the store and the requests now are) and leaves the cache
    as it is; a call with [force_refresh=True] gathers the bundle anew
    and overwrites the entry under the key. *)
Theorem info_cache_reuse st1 url1 sn1 cn1 fr1 (cache : gmap string dict)
    k b t cache1 :
  k ≠ "" →
  info st1 url1 sn1 cn1 (Some k) fr1 cache = ((Ok b, t), cache1) →
  (∀ st2 url2 sn2 cn2,
     info st2 url2 sn2 cn2 (Some k) false cache1 = ((Ok b, []), cache1)) ∧
  (∀ st2 url2 sn2 cn2 b' t',
     gather st2 url2 sn2 cn2 = (Ok b', t') →
     info st2 url2 sn2 cn2 (Some k) true cache1 =
       ((Ok b', t'), <[k := b']> cache1)).
Proof.
  intros Hk Hfirst. pose proof (key_given_nonempty k Hk) as Hgiven.
  assert (cache1 !! k = Some b) as Hcached.
  { destruct (cache_hit (Some k) fr1 cache) as [c|] eqn:Hhit.
    - rewrite (info_hit _ _ _ _ _ _ _ _ Hhit) in Hfirst. simplify_eq.
      unfold cache_hit in Hhit. destruct fr1; [done|]. by rewrite Hgiven in Hhit.
    - rewrite (info_miss _ _ _ _ _ _ _ Hhit) in Hfirst.
      destruct (gather st1 url1 sn1 cn1) as [[b0|e] t0]; [|by inversion Hfirst].
      unfold key_given in Hfirst. rewrite Hgiven in Hfirst.
      inversion Hfirst; subst. apply lookup_insert_eq. }
  split.
  - intros. apply info_hit. unfold cache_hit. by rewrite Hgiven.
  - intros st2 url2 sn2 cn2 b' t' Hg. rewrite info_miss by done.
    rewrite Hg. unfold key_given. by rewrite Hgiven.
Qed.

Lemma info_cache_reuse_witness :
  info moved_store "http://etcd:2379" None (Some [Obj (PInt 42)])
    (Some "boot") false {[ "boot" := mongo_bundle ]} =
    ((Ok mongo_bundle, []), {[ "boot" := mongo_bundle ]}) ∧
  info moved_store "http://etcd:2379" (Some [Obj (PStr "mongo")]) None
    (Some "boot") true {[ "boot" := mongo_bundle ]} =
    ((Ok moved_bundle, ["http://etcd:2379/v2/keys/backends/mongo"]),
     <[ "boot" := moved_bundle ]> {[ "boot" := mongo_bundle ]}).
Proof.
  destruct (info_cache_reuse sample_store "http://etcd:2379"
              (Some [Obj (PStr "mongo")]) None false ∅ "boot" mongo_bundle
              ["http://etcd:2379/v2/keys/backends/mongo"]
              {[ "boot" := mongo_bundle ]})
    as [Hreuse Hforce].
  - discriminate.
  - vm_compute. reflexivity.
  - split; [apply Hreuse|]. apply Hforce. vm_compute. reflexivity.
Defined.

(** C3 as stated fails for the empty cache key: nothing is cached under
    it, so the second call asks the store again and returns what the
    store now holds, not the bundle of the first call. *)
Lemma info_empty_key_not_reused :
  info sample_store "http://etcd:2379" (Some [Obj (PStr "mongo")]) None
    (Some "") false ∅ =
    ((Ok mongo_bundle, ["http://etcd:2379/v2/keys/backends/mongo"]), ∅) ∧
  info moved_store "http://etcd:2379" (Some [Obj (PStr "mongo")]) None
    (Some "") false ∅ =
    ((Ok moved_bundle, ["http://etcd:2379/v2/keys/backends/mongo"]), ∅) ∧
  moved_bundle ≠ mongo_bundle.
Proof.
  split; [vm_compute; reflexivity|]. split; [vm_compute; reflexivity|].
  intros Heq. apply (f_equal (fun b => replicas_of b "mongo")) in Heq.
  vm_compute in Heq. discriminate Heq.
Qed.

(** A node with neither value nor children resolves to [None]. *)
Lemma build_conf_absent (d : dict) key :
  d !! "key" = Some (PStr key) → d !! "value" = None → d !! "nodes" = None →
  build_conf (PDict d) None = Ok None.
Proof.
  intros Hk Hv Hn. rewrite build_conf_unfold. unfold build_conf_body.
  unfold current_key_of. simpl. rewrite Hk. simpl.
  rewrite py_index_last_segment. simpl.
  rewrite is_nonempty_dir_leaf by done. simpl.
  rewrite Hv. by rewrite bool_decide_eq_false_2 by by intros [? ?].
Qed.

(** A child that resolves to [None] makes the directory's resolution
    raise [TypeError], once the children before it have resolved. *)
Lemma build_conf_absent_child (d : dict) a key pre n post ms :
  current_key_of (PDict d) a = Ok key →
  d !! "dir" = Some (PBool true) →
  d !! "nodes" = Some (PList (pre ++ n :: post)%list) →
  Forall2 (fun c m => build_conf c None = Ok (Some m)) pre ms →
  build_conf n None = Ok None →
  build_conf (PDict d) a = Raise TypeError.
Proof.
  intros Hkey Hd Hn Hpre Habs. rewrite build_conf_unfold.
  unfold build_conf_body. rewrite Hkey. simpl.
  rewrite (is_nonempty_dir_dir d (pre ++ n :: post)); [|done|done|].
  2:{ by destruct pre. }
  simpl. rewrite Hn. simpl.
  assert (∀ acc,
    foldl_r (fun m c => let* r := build_conf c None in py_update m r) acc
      (pre ++ n :: post)%list = Raise TypeError) as ->; [|done].
  clear Hn. induction Hpre as [|c m pre ms Hc _ IH]; intros acc; simpl.
  - by rewrite Habs.
  - rewrite Hc. simpl. apply IH.
Qed.

(** C1 fails on the code: an empty directory below the root makes
    [build_conf] return [None] to its caller, whose [m.update(None)]
    raises [TypeError]; [get_conf] and [info] do not catch it. *)
Theorem get_conf_empty_directory_raises :
  get_conf sample_store "http://etcd:2379" "hollow" "h" =
    (Raise TypeError,
     ["http://etcd:2379/v2/keys/project-conf/hollow?recursive=true"]) ∧
  build_conf (empty_directory "/project-conf/hollow/empty") None = Ok None ∧
  info sample_store "http://etcd:2379" None (Some [Tuple ["hollow"; "h"]])
    None false ∅ =
    ((Raise TypeError,
      ["http://etcd:2379/v2/keys/project-conf/hollow?recursive=true"]), ∅).
Proof. repeat split; vm_compute; reflexivity. Qed.

(** ** Merging *)

Lemma get_service_run st url name alias r :
  (get_service st url name alias).1 = r →
  get_service st url name alias = (r, [service_url url name]).
Proof.
  intros <-. rewrite <- (get_service_trace st url name alias).
  by destruct (get_service st url name alias).
Qed.

Lemma singleton_truthy (k : string) (v : pyval) :
  py_truthy (PDict {[ k := v ]}) = true.
Proof.
  simpl. rewrite bool_decide_eq_false_2; [done|]. apply map_non_empty_singleton.
Qed.

Lemma filter_truthy_snoc found (d : dict) :
  py_truthy (PDict d) = true →
  filter_truthy (found ++ [Some d]) = (filter_truthy found ++ [d])%list.
Proof.
  intros Hd. unfold filter_truthy. rewrite omap_app. simpl in Hd |- *.
  by rewrite Hd.
Qed.

Lemma filter_truthy_cons found (d : dict) :
  py_truthy (PDict d) = true →
  filter_truthy (Some d :: found) = d :: filter_truthy found.
Proof.
  intros Hd. unfold filter_truthy. simpl in Hd |- *. by rewrite Hd.
Qed.

Lemma filter_truthy_none found :
  filter_truthy (None :: found) = filter_truthy found.
Proof. done. Qed.

(** The two service lookups of [info] on a list of two entries. *)
Lemma lookup_two_services st url e1 e2 na1 na2 r1 r2 :
  _build_tuple e1 = Ok na1 → _build_tuple e2 = Ok na2 →
  (get_service st url na1.1 na1.2).1 = Ok r1 →
  (get_service st url na2.1 na2.2).1 = Ok r2 →
  lookup_each (get_service st url) (Some [e1; e2]) =
    (Ok [r1; r2], [service_url url na1.1; service_url url na2.1]).
Proof.
  intros H1 H2 Hr1 Hr2. unfold lookup_each. simpl.
  rewrite (lookup_step_ok _ _ _ H1), (lookup_step_ok _ _ _ H2).
  by rewrite (get_service_run _ _ _ _ _ Hr1), (get_service_run _ _ _ _ _ Hr2).
Qed.

(** C6.  Two service requests under one alias [x], both resolved: the
    service map of the bundle holds under [x] the resolution of the
    later request.  The bundle is the merged configuration laid over
    [{"services": service map}], so the service map is what the bundle
    has under ["services"] unless a configuration result has that key;
    in particular a resolved configuration request whose alias is
    ["services"] (here the last one) puts its tree there instead. *)
Theorem info_later_request_wins st url a b x cn ck fr
    (cache : gmap string dict) (dA dB : dict) foundc tc :
  cache_hit ck fr cache = None →
  (get_service st url a x).1 = Ok (Some dA) →
  (get_service st url b x).1 = Ok (Some dB) →
  lookup_each (get_conf st url) cn = (Ok foundc, tc) →
  ∃ bundle services : dict,
    (info st url (Some [Tuple [a; x]; Tuple [b; x]]) cn ck fr cache).1.1 =
      Ok bundle ∧
    bundle = merge_dicts (filter_truthy foundc) ∪
             {[ "services" := PDict services ]} ∧
    is_Some (dB !! x) ∧ services !! x = dB !! x ∧
    (merge_dicts (filter_truthy foundc) !! "services" = None →
     bundle !! "services" = Some (PDict services)) ∧
    (∀ pre e name (dC : dict),
       cn = Some (pre ++ [e])%list →
       _build_tuple e = Ok (name, "services") →
       (get_conf st url name "services").1 = Ok (Some dC) →
       is_Some (dC !! "services") ∧ bundle !! "services" = dC !! "services").
Proof.
  intros Hmiss HA HB Hconf.
  destruct (get_service_some _ _ _ _ _ HA) as [ra ->].
  destruct (get_service_some _ _ _ _ _ HB) as [rb ->].
  pose proof (lookup_two_services st url (Tuple [a; x]) (Tuple [b; x])
                (a, x) (b, x) _ _ eq_refl eq_refl HA HB) as Hsvc.
  eexists _, _. split; [|split; [reflexivity|]].
  { rewrite info_miss by done. by rewrite (gather_ok _ _ _ _ _ _ _ _ Hsvc Hconf). }
  rewrite !filter_truthy_cons by apply singleton_truthy.
  change (filter_truthy []) with (@nil dict).
  change (merge_dicts [{[x := PDict ra]}; {[x := PDict rb]}])
    with ({[x := PDict rb]} ∪ ({[x := PDict ra]} ∪ (∅ : dict))).
  split; [by rewrite lookup_singleton_eq|]. split.
  { rewrite lookup_union_l'; [done|]. rewrite lookup_singleton_eq. eauto. }
  split.
  { intros Hnone. rewrite lookup_union_r by done. apply lookup_singleton_eq. }
  intros pre e name dC -> He HC.
  destruct (get_conf_some st url name "services" dC) as [v ->];
    [discriminate|done|].
  rewrite lookup_singleton_eq. split; [eauto|].
  unfold lookup_each in Hconf. simpl in Hconf. rewrite io_map_app in Hconf.
  destruct (io_map _ pre) as [[fpre|?] tpre]; simpl in Hconf; [|done].
  rewrite (lookup_step_ok _ _ _ He) in Hconf. simpl in Hconf.
  destruct (get_conf st url name "services") as [[r|?] tr]; simpl in *; [|done].
  simplify_eq. rewrite filter_truthy_snoc by apply singleton_truthy.
  rewrite merge_dicts_snoc.
  rewrite <- (assoc_L (∪)). apply lookup_union_Some_l, lookup_singleton_eq.
Qed.
Lemma info_later_request_wins_witness :
  ∃ bundle services : dict,
    (info sample_store "http://etcd:2379"
       (Some [Tuple ["mongo"; "db"]; Tuple ["backup"; "db"]])
       (Some [Tuple ["app"; "services"]]) None false ∅).1.1 = Ok bundle ∧
    services !! "db" =
      Some (PDict {[ "b1" := endpoint_at "10.0.0.9" 27017 ]}) ∧
    bundle !! "services" = Some (resolved app_tree).
Proof.
  edestruct (info_later_request_wins sample_store "http://etcd:2379"
               "mongo" "backup" "db" (Some [Tuple ["app"; "services"]])
               None false ∅)
    as (bundle & services & Hb & Heq & HdB & Hx & Hnone & Hsvc).
  - reflexivity.
  - vm_compute. reflexivity.
  - vm_compute. reflexivity.
  - vm_compute. reflexivity.
  - exists bundle, services. split; [exact Hb|]. split.
    + rewrite Hx. vm_compute. reflexivity.
    + edestruct (Hsvc [] (Tuple ["app"; "services"]) "app") as [_ ->];
        [reflexivity|reflexivity|vm_compute; reflexivity|].
      vm_compute. reflexivity.
Defined.
(** C8.  Two service requests, one resolved and one absent, in either
    order: [info] raises nothing and the service map of the bundle is
    the resolved entry's map, whose only key is that entry's alias. *)
Theorem info_drops_absent st url good bad nag nab cn ck fr
    (cache : gmap string dict) (d : dict) foundc tc sn :
  cache_hit ck fr cache = None →
  _build_tuple good = Ok nag → _build_tuple bad = Ok nab →
  (get_service st url nag.1 nag.2).1 = Ok (Some d) →
  (get_service st url nab.1 nab.2).1 = Ok None →
  lookup_each (get_conf st url) cn = (Ok foundc, tc) →
  sn = [good; bad] ∨ sn = [bad; good] →
  ∃ bundle services : dict,
    (info st url (Some sn) cn ck fr cache).1.1 = Ok bundle ∧
    bundle = merge_dicts (filter_truthy foundc) ∪
             {[ "services" := PDict services ]} ∧
    services = d ∧ dom services = {[ nag.2 ]}.
Proof.
  intros Hmiss Hg Hb Hd Hnone Hconf Hsn.
  destruct (get_service_some _ _ _ _ _ Hd) as [replicas ->].
  exists (merge_dicts (filter_truthy foundc) ∪
          {[ "services" := PDict {[ nag.2 := PDict replicas ]} ]}),
         {[ nag.2 := PDict replicas ]}.
  split; [|split; [done|split; [done|apply dom_singleton_L]]].
  rewrite info_miss by done.
  destruct Hsn as [-> | ->].
  - rewrite (gather_ok _ _ _ _ _ _ _ _
               (lookup_two_services _ _ _ _ _ _ _ _ Hg Hb Hd Hnone) Hconf).
    rewrite filter_truthy_cons by apply singleton_truthy.
    rewrite filter_truthy_none. unfold merge_dicts at 2. simpl.
    by rewrite (right_id_L ∅ (∪)).
  - rewrite (gather_ok _ _ _ _ _ _ _ _
               (lookup_two_services _ _ _ _ _ _ _ _ Hb Hg Hnone Hd) Hconf).
    rewrite filter_truthy_none.
    rewrite filter_truthy_cons by apply singleton_truthy.
    unfold merge_dicts at 2. simpl.
    by rewrite (right_id_L ∅ (∪)).
Qed.

Lemma info_drops_absent_witness :
  ∃ bundle services : dict,
    (info sample_store "http://etcd:2379"
       (Some [Obj (PStr "redis"); Tuple ["mongo"; "db"]]) None None false ∅).1.1
      = Ok bundle ∧
    bundle = merge_dicts (filter_truthy []) ∪
             {[ "services" := PDict services ]} ∧
    services = {[ "db" := PDict {[ "r1" := endpoint_at "10.0.0.1" 27017;
                                   "r2" := endpoint_at "10.0.0.2" 27018 ]} ]} ∧
    dom services = {[ "db" ]}.
Proof.
  apply (info_drops_absent sample_store "http://etcd:2379"
           (Tuple ["mongo"; "db"]) (Obj (PStr "redis"))
           ("mongo", "db") ("redis", "redis") None None false ∅ _ [] []).
  - reflexivity.
  - reflexivity.
  - reflexivity.
  - vm_compute. reflexivity.
  - vm_compute. reflexivity.
  - reflexivity.
  - right. reflexivity.
Defined.

(** * Further properties *)

(** ** Service lookups *)

(** X1.  An exception raised by the request itself: [KeyError],
    [IndexError] and [ValueError] (a body that is not JSON) give
    [None]; any other exception, such as a connection failure, leaves
    [get_service]. *)
Theorem get_service_store_exception st url name alias e :
  st (service_url url name) = Raise e →
  get_service st url name alias =
    (if handled e then Ok None else Raise e, [service_url url name]).
Proof.
  intros Hst. unfold get_service, requests_get_json, try_except, io_bind.
  rewrite Hst. by destruct e.
Qed.

Lemma get_service_store_exception_witness :
  get_service (const_store (Raise ConnectionError)) "http://etcd:2379"
    "mongo" "db" =
    (Raise ConnectionError, ["http://etcd:2379/v2/keys/backends/mongo"]) ∧
  get_service (const_store (Raise ValueError)) "http://etcd:2379"
    "mongo" "db" = (Ok None, ["http://etcd:2379/v2/keys/backends/mongo"]).
Proof.
  split.
  - exact (get_service_store_exception (const_store (Raise ConnectionError))
             "http://etcd:2379" "mongo" "db" ConnectionError eq_refl).
  - exact (get_service_store_exception (const_store (Raise ValueError))
             "http://etcd:2379" "mongo" "db" ValueError eq_refl).
Defined.

(** X2.  Whatever the store answers, a service lookup and a
    configuration lookup each send exactly one request: to
    [<url>/v2/keys/backends/<name>] and to
    [<url>/v2/keys/project-conf/<name>?recursive=true]. *)
Theorem lookups_send_one_request st url name alias :
  (get_service st url name alias).2 = [url ++ "/v2/keys/backends/" ++ name] ∧
  (get_conf st url name alias).2 =
    [url ++ "/v2/keys/project-conf/" ++ name ++ "?recursive=true"].
Proof. split; [apply get_service_trace|apply get_conf_trace]. Qed.

(** X3.  A body without a [node] member (etcd's error body), or whose
    node has no [nodes] member (a leaf or an empty directory), is no
    error: the lookup returns [None]. *)
Theorem get_service_no_listing st url name alias (resp : dict) :
  st (service_url url name) = Ok (PDict resp) →
  resp !! "node" = None ∨
  (∃ node : dict, resp !! "node" = Some (PDict node) ∧ node !! "nodes" = None) →
  get_service st url name alias = (Ok None, [service_url url name]).
Proof.
  intros Hst Hno. unfold get_service, requests_get_json, try_except, io_bind, lift.
  rewrite Hst. simpl. destruct Hno as [Hn|(node & Hn & Hns)]; rewrite Hn; simpl.
  - done.
  - by rewrite Hns.
Qed.

Lemma get_service_no_listing_witness :
  get_service sample_store "http://etcd:2379" "absent" "x" =
    (Ok None, [service_url "http://etcd:2379" "absent"]) ∧
  get_service (const_store (Ok (response (empty_directory "/backends/e"))))
    "http://etcd:2379" "e" "x" =
    (Ok None, [service_url "http://etcd:2379" "e"]).
Proof.
  split.
  - eapply (get_service_no_listing sample_store "http://etcd:2379" "absent" "x").
    + reflexivity.
    + left. reflexivity.
  - eapply (get_service_no_listing _ "http://etcd:2379" "e" "x").
    + reflexivity.
    + right. eexists. split; reflexivity.
Defined.

(** X4.  A body that is not a JSON object, or whose [node] is not one,
    makes the subscript raise [TypeError], which [get_service] does not
    handle. *)
Theorem get_service_not_object st url name alias data :
  st (service_url url name) = Ok data →
  is_dict data = false ∨
  (∃ (resp : dict) node, data = PDict resp ∧ resp !! "node" = Some node ∧
                         is_dict node = false) →
  get_service st url name alias = (Raise TypeError, [service_url url name]).
Proof.
  intros Hst Hno. unfold get_service, requests_get_json, try_except, io_bind, lift.
  rewrite Hst. simpl. destruct Hno as [Hd|(resp & node & -> & Hn & Hd)].
  - by destruct data.
  - simpl. rewrite Hn. simpl. by destruct node.
Qed.

Lemma get_service_not_object_witness :
  get_service (const_store (Ok (PList []))) "http://etcd:2379" "m" "x" =
    (Raise TypeError, [service_url "http://etcd:2379" "m"]) ∧
  get_service (const_store (Ok (response PNone))) "http://etcd:2379" "m" "x" =
    (Raise TypeError, [service_url "http://etcd:2379" "m"]).
Proof.
  split.
  - apply (get_service_not_object _ "http://etcd:2379" "m" "x" (PList []) eq_refl).
    by left.
  - eapply (get_service_not_object _ "http://etcd:2379" "m" "x" _ eq_refl).
    right. eexists _, PNone. repeat split; reflexivity.
Defined.

(** X5.  An empty list of [nodes] is not absence: the lookup returns
    the alias with an empty replica map, and [info] keeps that result. *)
Theorem get_service_empty_listing st url name alias (resp node : dict) :
  st (service_url url name) = Ok (PDict resp) →
  resp !! "node" = Some (PDict node) →
  node !! "nodes" = Some (PList []) →
  get_service st url name alias =
    (Ok (Some {[ alias := PDict ∅ ]}), [service_url url name]) ∧
  filter_truthy [Some {[ alias := PDict ∅ ]}] = [ {[ alias := PDict ∅ ]} ].
Proof.
  intros Hst Hnode Hnodes. split.
  - rewrite (get_service_eval st url name alias (PDict resp) (PDict node) (PList []));
      [done|done|by simpl; rewrite Hnode|by simpl; rewrite Hnodes].
  - apply filter_truthy_cons, singleton_truthy.
Qed.

Lemma get_service_empty_listing_witness :
  get_service (const_store (Ok (response (directory "/backends/e" []))))
    "http://etcd:2379" "e" "x" =
    (Ok (Some {[ "x" := PDict ∅ ]}), [service_url "http://etcd:2379" "e"]) ∧
  filter_truthy [Some {[ "x" := PDict ∅ ]}] = [ {[ "x" := PDict ∅ ]} ].
Proof.
  eapply (get_service_empty_listing _ "http://etcd:2379" "e" "x");
    reflexivity.
Defined.

Lemma py_dict_snoc pairs k v :
  py_dict (pairs ++ [(k, v)]) = <[k := v]> (py_dict pairs).
Proof. unfold py_dict. by rewrite foldl_app. Qed.

Lemma py_dict_lookup_last pairs k v later :
  k ∉ later.*1 → py_dict (pairs ++ (k, v) :: later) !! k = Some v.
Proof.
  induction later as [|[k' v'] later IH] using rev_ind; intros Hk.
  - rewrite py_dict_snoc. apply lookup_insert_eq.
  - rewrite fmap_app, not_elem_of_app in Hk. destruct Hk as [Hk Hk'].
    rewrite app_comm_cons, app_assoc, py_dict_snoc.
    rewrite lookup_insert_ne; [by apply IH|].
    intros ->. apply Hk'. simpl. by left.
Qed.

Lemma py_dict_dom pairs : dom (py_dict pairs) = list_to_set pairs.*1.
Proof.
  induction pairs as [|[k v] pairs IH] using rev_ind; [apply dom_empty_L|].
  rewrite py_dict_snoc, dom_insert_L, IH, fmap_app, list_to_set_app_L.
  simpl. rewrite (right_id_L ∅ (∪)). apply (comm_L (∪)).
Qed.

Lemma py_dict_size_le pairs : (size (py_dict pairs) ≤ List.length pairs)%nat.
Proof.
  induction pairs as [|[k v] pairs IH] using rev_ind; [done|].
  rewrite py_dict_snoc, length_app, map_size_insert. simpl.
  destruct (py_dict pairs !! k); simpl; lia.
Qed.

(** X6.  Leaves that share a last path segment do not add up: the
    replica map has one entry per distinct segment (at most [N]), and
    under each segment the endpoint of the last leaf carrying it. *)
Theorem get_service_same_id_last_wins
    st url name alias (resp node : dict) ns eps :
  st (service_url url name) = Ok (PDict resp) →
  resp !! "node" = Some (PDict node) →
  node !! "nodes" = Some (PList ns) →
  Forall2 well_formed_leaf ns eps →
  ∃ replicas : dict,
    get_service st url name alias =
      (Ok (Some {[ alias := PDict replicas ]}), [service_url url name]) ∧
    dom replicas = list_to_set (replica_id <$> eps) ∧
    (size replicas ≤ List.length ns)%nat ∧
    ∀ before e after,
      eps = (before ++ e :: after)%list →
      replica_id e ∉ replica_id <$> after →
      replicas !! replica_id e = Some (endpoint_value e).
Proof.
  intros Hst Hnode Hnodes Hwf.
  set (pair_of := fun e => (replica_id e, endpoint_value e)).
  assert (∀ l, (pair_of <$> l).*1 = replica_id <$> l) as Hkeys.
  { intros l. by rewrite <- list_fmap_compose. }
  exists (py_dict (pair_of <$> eps)). split; [|split; [|split]].
  - rewrite (get_service_eval st url name alias (PDict resp) (PDict node) (PList ns));
      [|done|by simpl; rewrite Hnode|by simpl; rewrite Hnodes].
    unfold py_map. simpl.
    rewrite (map_r_good get_service_entry well_formed_leaf pair_of ns eps);
      [done| |done].
    intros n e Hne. destruct Hne as (d & -> & ?).
    apply get_service_entry_good. by exists d.
  - by rewrite py_dict_dom, Hkeys.
  - etrans; [apply py_dict_size_le|].
    rewrite length_fmap. by rewrite (Forall2_length _ _ _ Hwf).
  - intros before e after -> Hlast. rewrite fmap_app. simpl.
    apply py_dict_lookup_last. by rewrite Hkeys.
Qed.

Lemma get_service_same_id_last_wins_witness :
  ∃ replicas : dict,
    get_service
      (const_store (Ok (response (directory "/backends/twin" twin_leaves))))
      "http://etcd:2379" "twin" "db" =
      (Ok (Some {[ "db" := PDict replicas ]}),
       [service_url "http://etcd:2379" "twin"]) ∧
    dom replicas = list_to_set (replica_id <$> twin_endpoints) ∧
    (size replicas ≤ List.length twin_leaves)%nat ∧
    ∀ before e after,
      twin_endpoints = (before ++ e :: after)%list →
      replica_id e ∉ replica_id <$> after →
      replicas !! replica_id e = Some (endpoint_value e).
Proof.
  eapply (get_service_same_id_last_wins _ "http://etcd:2379" "twin" "db").
  - reflexivity.
  - reflexivity.
  - reflexivity.
  - repeat constructor; eexists; repeat split; reflexivity.
Defined.

(** X7.  Only the first two colon-separated segments of a value are
    read: text after a second colon is ignored, and the replica is
    keyed by what follows the last slash of the key. *)
Theorem get_service_entry_extra_segments (d : dict) path id host ptxt port rest :
  d !! "key" = Some (PStr (path ++ String "/" id)) →
  occurs "/" id = false →
  d !! "value" = Some (PStr (host ++ String ":" (ptxt ++ String ":" rest))) →
  occurs ":" host = false →
  py_int ptxt = Ok port →
  get_service_entry (PDict d) =
    Ok (id, PDict {[ "host" := PStr host; "port" := PInt port ]}).
Proof.
  intros Hkey Hid Hval Hhost Hport. unfold get_service_entry. simpl.
  rewrite Hkey, Hval. simpl. rewrite py_index_last_segment. simpl.
  rewrite last_path_segment_app by done.
  rewrite split_on_first by done.
  rewrite split_on_first by eauto using py_int_no_colon.
  change 1 with (Z.of_nat 1). change 0 with (Z.of_nat 0).
  rewrite !py_index_nat. simpl. by rewrite Hport.
Qed.

Lemma get_service_entry_extra_segments_witness :
  get_service_entry (leaf "/backends/mongo/r1" "10.0.0.1:27017:primary") =
    Ok ("r1", PDict {[ "host" := PStr "10.0.0.1"; "port" := PInt 27017 ]}).
Proof.
  apply (get_service_entry_extra_segments _ "/backends/mongo" "r1" "10.0.0.1"
           "27017" 27017 "primary"); reflexivity.
Defined.

(** X8.  A leaf whose key or value is not text is no handled defect:
    [split] is missing on it, and the [AttributeError] leaves
    [get_service] once the leaves before it have been read. *)
Theorem get_service_non_text_member
    st url name alias (resp node d : dict) before eps after :
  st (service_url url name) = Ok (PDict resp) →
  resp !! "node" = Some (PDict node) →
  node !! "nodes" = Some (PList (before ++ PDict d :: after)%list) →
  Forall2 well_formed_leaf before eps →
  (∃ k, d !! "key" = Some k ∧ is_text k = false) ∨
  (∃ k v, d !! "key" = Some (PStr k) ∧ d !! "value" = Some v ∧
          is_text v = false) →
  get_service st url name alias =
    (Raise AttributeError, [service_url url name]).
Proof.
  intros Hst Hnode Hnodes Hwf Hbad.
  rewrite (get_service_eval st url name alias (PDict resp) (PDict node)
             (PList (before ++ PDict d :: after)));
    [|done|by simpl; rewrite Hnode|by simpl; rewrite Hnodes].
  unfold py_map. simpl.
  assert (get_service_entry (PDict d) = Raise AttributeError) as Hd.
  { unfold get_service_entry. simpl.
    destruct Hbad as [(k & Hk & Ht)|(k & v & Hk & Hv & Ht)]; rewrite Hk; simpl.
    - by destruct k.
    - rewrite py_index_last_segment. simpl. rewrite Hv. simpl. by destruct v. }
  assert (map_r get_service_entry (before ++ PDict d :: after)%list =
            Raise AttributeError) as ->; [|done].
  clear Hnodes. induction Hwf as [|n e ns es Hne _ IH]; simpl.
  - by rewrite Hd.
  - destruct Hne as (d' & -> & Hn).
    rewrite (get_service_entry_good d' e) by by exists d'. simpl. by rewrite IH.
Qed.

Lemma get_service_non_text_member_witness :
  get_service
    (const_store
       (Ok (response (directory "/backends/m"
              [leaf "/backends/m/r1" "10.0.0.1:27017";
               PDict {[ "key" := PStr "/backends/m/r2"; "value" := PInt 5 ]}]))))
    "http://etcd:2379" "m" "db" =
    (Raise AttributeError, [service_url "http://etcd:2379" "m"]).
Proof.
  eapply (get_service_non_text_member _ "http://etcd:2379" "m" "db" _ _ _
            [leaf "/backends/m/r1" "10.0.0.1:27017"]
            [Endpoint "/backends/m/r1" "10.0.0.1" "27017" 27017] []).
  - reflexivity.
  - reflexivity.
  - reflexivity.
  - repeat constructor; eexists; repeat split; reflexivity.
  - right. exists "/backends/m/r2", (PInt 5). repeat split; reflexivity.
Defined.

(** X9.  A service lookup that returns a mapping returns one with the
    alias as its only key; such a mapping is never empty, so
    [filter(lambda v: v, ...)] in [info] never drops it. *)
Theorem get_service_present_one_key st url name alias (d : dict) :
  (get_service st url name alias).1 = Ok (Some d) →
  dom d = {[ alias ]} ∧ py_truthy (PDict d) = true.
Proof.
  intros Hd. destruct (get_service_some _ _ _ _ _ Hd) as [replicas ->].
  split; [apply dom_singleton_L|apply singleton_truthy].
Qed.

Lemma get_service_present_one_key_witness :
  dom ({[ "db" := PDict ∅ ]} : dict) = {[ "db" ]} ∧
  py_truthy (PDict {[ "db" := PDict ∅ ]}) = true.
Proof.
  apply (get_service_present_one_key
           (const_store (Ok (response (directory "/backends/e" []))))
           "http://etcd:2379" "e" "db").
  reflexivity.
Defined.

(** ** Configuration lookups *)

Lemma is_nonempty_dir_has_children (d : dict) :
  is_nonempty_dir (PDict d) = Ok (has_children d).
Proof.
  unfold is_nonempty_dir, has_children, py_and, truth_of, py_contains, py_getitem.
  destruct (d !! "dir") as [flag|]; [|done]. cbn.
  destruct (py_truthy flag); [|by destruct (d !! "nodes")]. cbn.
  by destruct (d !! "nodes").
Qed.

Lemma current_key_of_alias node alias :
  alias ≠ "" → current_key_of node (Some alias) = Ok alias.
Proof.
  intros Ha. unfold current_key_of. simpl. by destruct (String.eqb_spec alias "").
Qed.

Lemma get_conf_eval st url name alias (resp : dict) node :
  st (conf_url url name) = Ok (PDict resp) →
  resp !! "node" = Some node →
  get_conf st url name alias = (build_conf node (Some alias), [conf_url url name]).
Proof.
  intros Hst Hnode. unfold get_conf, requests_get_json, io_bind, lift.
  rewrite Hst. simpl. rewrite Hnode.
  by rewrite bool_decide_eq_true_2 by eauto.
Qed.

(** X10.  [get_conf] handles no exception: whatever the request raises,
    a body that is not JSON ([ValueError]) included, leaves it. *)
Theorem get_conf_store_exception st url name alias e :
  st (conf_url url name) = Raise e →
  get_conf st url name alias = (Raise e, [conf_url url name]) ∧
  (get_conf st url name alias).1 ≠ Ok None.
Proof.
  intros Hst. unfold get_conf, requests_get_json, io_bind. by rewrite Hst.
Qed.

Lemma get_conf_store_exception_witness :
  get_conf (const_store (Raise ValueError)) "http://etcd:2379" "app" "cfg" =
    (Raise ValueError, [conf_url "http://etcd:2379" "app"]) ∧
  (get_conf (const_store (Raise ValueError)) "http://etcd:2379" "app" "cfg").1
    ≠ Ok None.
Proof.
  exact (get_conf_store_exception (const_store (Raise ValueError))
           "http://etcd:2379" "app" "cfg" ValueError eq_refl).
Defined.

(** X11.  A JSON object without a [node] member (etcd's error body)
    gives [None]; no member of it is read. *)
Theorem get_conf_no_node st url name alias (resp : dict) :
  st (conf_url url name) = Ok (PDict resp) →
  resp !! "node" = None →
  get_conf st url name alias = (Ok None, [conf_url url name]).
Proof.
  intros Hst Hnode. unfold get_conf, requests_get_json, io_bind, lift.
  rewrite Hst. simpl. rewrite Hnode.
  by rewrite bool_decide_eq_false_2 by by intros [? ?].
Qed.

Lemma get_conf_no_node_witness :
  get_conf sample_store "http://etcd:2379" "absent" "cfg" =
    (Ok None, [conf_url "http://etcd:2379" "absent"]).
Proof.
  eapply (get_conf_no_node sample_store "http://etcd:2379" "absent" "cfg");
    reflexivity.
Defined.

(** X12.  An empty alias is no override: the top-level key is then the
    last path segment of the store's own key. *)
Theorem get_conf_empty_alias st url name (resp : dict) node t :
  st (conf_url url name) = Ok (PDict resp) →
  resp !! "node" = Some node →
  encodes node t →
  get_conf st url name "" =
    (Ok (Some {[ last_path_segment (tree_key t) := resolved t ]}),
     [conf_url url name]).
Proof.
  intros Hst Hnode Henc. rewrite (get_conf_eval _ _ _ _ _ _ Hst Hnode).
  rewrite (build_conf_encodes t node (Some "")
             (last_path_segment (tree_key t))); [done|done|].
  apply (current_key_of_encodes node t Henc).
Qed.

Lemma get_conf_empty_alias_witness :
  get_conf sample_store "http://etcd:2379" "app" "" =
    (Ok (Some {[ "app" := resolved app_tree ]}),
     [conf_url "http://etcd:2379" "app"]).
Proof.
  eapply (get_conf_empty_alias sample_store "http://etcd:2379" "app" _ _ app_tree).
  - reflexivity.
  - reflexivity.
  - repeat (econstructor; try reflexivity; try discriminate).
Defined.

(** X13.  A root without children -- no true [dir] flag or no non-empty
    [nodes] -- resolves by its value alone: to [{alias: value}] if it
    has one, to [None] otherwise.  [nodes] without a [dir] flag and a
    [dir] flag without [nodes] are both ignored. *)
Theorem get_conf_childless_root st url name alias (resp d : dict) :
  alias ≠ "" →
  st (conf_url url name) = Ok (PDict resp) →
  resp !! "node" = Some (PDict d) →
  has_children d = false →
  get_conf st url name alias =
    (Ok (match d !! "value" with
         | Some value => Some {[ alias := value ]}
         | None => None
         end), [conf_url url name]).
Proof.
  intros Ha Hst Hnode Hch. rewrite (get_conf_eval _ _ _ _ _ _ Hst Hnode).
  rewrite build_conf_unfold. unfold build_conf_body.
  rewrite (current_key_of_alias _ _ Ha). simpl.
  rewrite is_nonempty_dir_has_children, Hch. simpl.
  destruct (d !! "value") as [value|] eqn:Hv.
  - by rewrite bool_decide_eq_true_2 by eauto.
  - by rewrite bool_decide_eq_false_2 by by intros [? ?].
Qed.

Lemma get_conf_childless_root_witness :
  get_conf (const_store (Ok (response (PDict flagless))))
    "http://etcd:2379" "p" "cfg" =
    (Ok (Some {[ "cfg" := PStr "v" ]}), [conf_url "http://etcd:2379" "p"]) ∧
  get_conf (const_store (Ok (response (PDict empty_p))))
    "http://etcd:2379" "p" "cfg" =
    (Ok None, [conf_url "http://etcd:2379" "p"]).
Proof.
  split.
  - apply (get_conf_childless_root
             (const_store (Ok (response (PDict flagless))))
             "http://etcd:2379" "p" "cfg"
             {[ "action" := PStr "get"; "node" := PDict flagless ]} flagless);
      [discriminate|reflexivity|reflexivity|reflexivity].
  - apply (get_conf_childless_root
             (const_store (Ok (response (PDict empty_p))))
             "http://etcd:2379" "p" "cfg"
             {[ "action" := PStr "get"; "node" := PDict empty_p ]} empty_p);
      [discriminate|reflexivity|reflexivity|reflexivity].
Defined.

Lemma build_children_resolved ns ts :
  Forall2 encodes ns ts →
  Forall2 (fun c m => build_conf c None = Ok (Some m)) ns
    ((fun t => {[ last_path_segment (tree_key t) := resolved t ]}) <$> ts).
Proof.
  induction 1 as [|n t ns ts Hn _ IH]; constructor; [|done].
  apply build_conf_encodes; [done|]. by apply current_key_of_encodes.
Qed.

Lemma build_conf_child_raises (d : dict) a key before n after ms e :
  current_key_of (PDict d) a = Ok key →
  d !! "dir" = Some (PBool true) →
  d !! "nodes" = Some (PList (before ++ n :: after)%list) →
  Forall2 (fun c m => build_conf c None = Ok (Some m)) before ms →
  build_conf n None = Raise e →
  build_conf (PDict d) a = Raise e.
Proof.
  intros Hkey Hd Hn Hpre Hraise. rewrite build_conf_unfold.
  unfold build_conf_body. rewrite Hkey. simpl.
  rewrite (is_nonempty_dir_dir d (before ++ n :: after)); [|done|done|].
  2:{ by destruct before. }
  simpl. rewrite Hn. simpl.
  assert (∀ acc,
    foldl_r (fun m c => let* r := build_conf c None in py_update m r) acc
      (before ++ n :: after)%list = Raise e) as ->; [|done].
  clear Hn. induction Hpre as [|c m pre ms Hc _ IH]; intros acc; simpl.
  - by rewrite Hraise.
  - rewrite Hc. simpl. apply IH.
Qed.

(** X14.  Nothing is handled inside the tree: an exception raised while
    resolving a child, once the children before it have resolved,
    leaves [get_conf] as it is. *)
Theorem get_conf_child_exception
    st url name alias (resp d : dict) before ts n after e :
  alias ≠ "" →
  st (conf_url url name) = Ok (PDict resp) →
  resp !! "node" = Some (PDict d) →
  d !! "dir" = Some (PBool true) →
  d !! "nodes" = Some (PList (before ++ n :: after)%list) →
  Forall2 encodes before ts →
  build_conf n None = Raise e →
  get_conf st url name alias = (Raise e, [conf_url url name]).
Proof.
  intros Ha Hst Hnode Hd Hn Hpre Hraise.
  rewrite (get_conf_eval _ _ _ _ _ _ Hst Hnode).
  by rewrite (build_conf_child_raises d (Some alias) alias before n after _ e
                (current_key_of_alias _ _ Ha) Hd Hn
                (build_children_resolved _ _ Hpre) Hraise).
Qed.

Lemma get_conf_child_exception_witness :
  get_conf
    (const_store
       (Ok (response (directory "/project-conf/p"
              [leaf "/project-conf/p/x" "1";
               PDict {[ "value" := PStr "no key" ]}]))))
    "http://etcd:2379" "p" "cfg" =
    (Raise KeyError, [conf_url "http://etcd:2379" "p"]).
Proof.
  eapply (get_conf_child_exception _ "http://etcd:2379" "p" "cfg" _ _
            [leaf "/project-conf/p/x" "1"]
            [Leaf "/project-conf/p/x" (PStr "1")]
            (PDict {[ "value" := PStr "no key" ]}) []).
  - discriminate.
  - reflexivity.
  - reflexivity.
  - reflexivity.
  - reflexivity.
  - repeat (econstructor; try reflexivity).
  - vm_compute. reflexivity.
Defined.

(** X15.  A child without value and without children -- an empty
    directory, say -- resolves to [None], which its parent passes to
    [update]: the lookup raises [TypeError] once the children before it
    have resolved. *)
Theorem get_conf_absent_child
    st url name alias (resp d dn : dict) before ts key after :
  alias ≠ "" →
  st (conf_url url name) = Ok (PDict resp) →
  resp !! "node" = Some (PDict d) →
  d !! "dir" = Some (PBool true) →
  d !! "nodes" = Some (PList (before ++ PDict dn :: after)%list) →
  Forall2 encodes before ts →
  dn !! "key" = Some (PStr key) → dn !! "value" = None → dn !! "nodes" = None →
  build_conf (PDict dn) None = Ok None ∧
  get_conf st url name alias = (Raise TypeError, [conf_url url name]).
Proof.
  intros Ha Hst Hnode Hd Hn Hpre Hk Hv Hns.
  pose proof (build_conf_absent dn key Hk Hv Hns) as Habs. split; [done|].
  rewrite (get_conf_eval _ _ _ _ _ _ Hst Hnode).
  by rewrite (build_conf_absent_child d (Some alias) alias before (PDict dn) after _
                (current_key_of_alias _ _ Ha) Hd Hn
                (build_children_resolved _ _ Hpre) Habs).
Qed.

Lemma get_conf_absent_child_witness :
  build_conf (empty_directory "/project-conf/hollow/empty") None = Ok None ∧
  get_conf sample_store "http://etcd:2379" "hollow" "h" =
    (Raise TypeError, [conf_url "http://etcd:2379" "hollow"]).
Proof.
  eapply (get_conf_absent_child sample_store "http://etcd:2379" "hollow" "h" _ _ _
            [leaf "/project-conf/hollow/x" "1"]
            [Leaf "/project-conf/hollow/x" (PStr "1")]
            "/project-conf/hollow/empty" []).
  - discriminate.
  - reflexivity.
  - reflexivity.
  - reflexivity.
  - reflexivity.
  - repeat (econstructor; try reflexivity).
  - reflexivity.
  - reflexivity.
  - reflexivity.
Defined.

(** X16.  A configuration lookup under a non-empty alias that returns a
    mapping returns one with the alias as its only key; [info] never
    drops it. *)
Theorem get_conf_present_one_key st url name alias (d : dict) :
  alias ≠ "" →
  (get_conf st url name alias).1 = Ok (Some d) →
  dom d = {[ alias ]} ∧ py_truthy (PDict d) = true.
Proof.
  intros Ha Hd. destruct (get_conf_some _ _ _ _ _ Ha Hd) as [v ->].
  split; [apply dom_singleton_L|apply singleton_truthy].
Qed.

Lemma get_conf_present_one_key_witness :
  dom ({[ "cfg" := PStr "v" ]} : dict) = {[ "cfg" ]} ∧
  py_truthy (PDict {[ "cfg" := PStr "v" ]}) = true.
Proof.
  apply (get_conf_present_one_key
           (const_store (Ok (response (leaf "/project-conf/p" "v"))))
           "http://etcd:2379" "p" "cfg").
  - discriminate.
  - reflexivity.
Defined.

(** ** Merging and [info] *)

Lemma merge_dicts_nil : merge_dicts [] = ∅.
Proof. done. Qed.

Lemma merge_dicts_lookup_none (l : list dict) k :
  (∀ d, d ∈ l → d !! k = None) → merge_dicts l !! k = None.
Proof.
  induction l as [|d l IH] using rev_ind; intros Hl; [done|].
  rewrite merge_dicts_snoc. apply lookup_union_None. split.
  - apply Hl. set_unfold. auto.
  - apply IH. intros d' Hd'. apply Hl. set_unfold. auto.
Qed.

Lemma merge_dicts_lookup_some (before after : list dict) (d : dict) k v :
  d !! k = Some v → (∀ d', d' ∈ after → d' !! k = None) →
  merge_dicts (before ++ d :: after) !! k = Some v.
Proof.
  intros Hd. induction after as [|d' after IH] using rev_ind; intros Hafter.
  - rewrite merge_dicts_snoc. by apply lookup_union_Some_l.
  - rewrite app_comm_cons, app_assoc, merge_dicts_snoc.
    rewrite lookup_union_r.
    + apply IH. intros d'' Hd''. apply Hafter. set_unfold. auto.
    + apply Hafter. set_unfold. auto.
Qed.

(** X17.  [merge_dicts] gives every key the value of the last argument
    that has it, and has no key that no argument has. *)
Theorem merge_dicts_later_wins (dict_args : list dict) k :
  ((∀ d, d ∈ dict_args → d !! k = None) → merge_dicts dict_args !! k = None) ∧
  (∀ before d after v,
     dict_args = (before ++ d :: after)%list →
     d !! k = Some v →
     (∀ d', d' ∈ after → d' !! k = None) →
     merge_dicts dict_args !! k = Some v).
Proof.
  split; [apply merge_dicts_lookup_none|].
  intros before d after v -> Hd Hafter. by apply merge_dicts_lookup_some.
Qed.

Lemma merge_dicts_later_wins_witness :
  merge_dicts [ ({[ "a" := PInt 1 ]} : dict); {[ "a" := PInt 2 ]};
                {[ "b" := PInt 3 ]} ] !! "a" = Some (PInt 2) ∧
  merge_dicts [ ({[ "a" := PInt 1 ]} : dict) ] !! "c" = None.
Proof.
  split.
  - apply (proj2 (merge_dicts_later_wins _ "a")
             [ {[ "a" := PInt 1 ]} ] {[ "a" := PInt 2 ]} [ {[ "b" := PInt 3 ]} ]
             (PInt 2)).
    + reflexivity.
    + reflexivity.
    + intros d' ->%list_elem_of_singleton. reflexivity.
  - apply (proj1 (merge_dicts_later_wins _ "c")).
    intros d ->%list_elem_of_singleton. reflexivity.
Defined.

(** X18.  Merging in two steps is merging at once: the merge of two
    merged groups is the merge of their concatenation, and merging a
    single dictionary gives an equal one. *)
Theorem merge_dicts_in_steps (l1 l2 : list dict) (d : dict) :
  merge_dicts [merge_dicts l1; merge_dicts l2] = merge_dicts (l1 ++ l2) ∧
  merge_dicts [d] = d.
Proof.
  split.
  - unfold merge_dicts at 1. simpl. rewrite (right_id_L ∅ (∪)).
    induction l2 as [|d2 l2 IH] using rev_ind.
    + by rewrite merge_dicts_nil, (left_id_L ∅ (∪)), app_nil_r.
    + by rewrite app_assoc, !merge_dicts_snoc, <- (assoc_L (∪)), IH.
  - unfold merge_dicts. simpl. apply (right_id_L ∅ (∪)).
Qed.

Lemma lookup_each_empty f names :
  names = None ∨ names = Some [] → lookup_each f names = (Ok [], []).
Proof. by intros [-> | ->]. Qed.

(** X19.  With no service and no configuration requested -- [None] or
    an empty list -- [info] asks the store nothing and returns
    [{"services": {}}]. *)
Theorem info_no_requests st url sn cn ck fr (cache : gmap string dict) :
  sn = None ∨ sn = Some [] →
  cn = None ∨ cn = Some [] →
  cache_hit ck fr cache = None →
  (info st url sn cn ck fr cache).1 = (Ok {[ "services" := PDict ∅ ]}, []).
Proof.
  intros Hsn Hcn Hmiss. rewrite info_miss by done. simpl.
  rewrite (gather_ok st url sn cn [] [] [] []) by by apply lookup_each_empty.
  change (filter_truthy []) with (@nil dict). rewrite merge_dicts_nil.
  by rewrite (left_id_L ∅ (∪)).
Qed.

Lemma info_no_requests_witness :
  (info (const_store (Raise ConnectionError)) "http://etcd:2379" None
     (Some []) (Some "k") true {[ "k" := mongo_bundle ]}).1 =
    (Ok {[ "services" := PDict ∅ ]}, []).
Proof.
  apply info_no_requests; [by left|by right|reflexivity].
Defined.

Lemma io_map_trace_prefix {A B} (f : A → io B) (u : A → string) l :
  (∀ x y tx, f x = (Ok y, tx) → tx = [u x]) →
  (∀ x e tx, f x = (Raise e, tx) → tx `prefix_of` [u x]) →
  (io_map f l).2 `prefix_of` (u <$> l).
Proof.
  intros Hok Hraise. induction l as [|x l IH]; simpl; [done|].
  destruct (f x) as [[y|e] tx] eqn:Hx; simpl.
  - rewrite (Hok _ _ _ Hx).
    destruct (io_map f l) as [[ys|e] tl]; simpl in *;
      rewrite ?app_nil_r; by apply prefix_cons.
  - etrans; [by eapply Hraise|]. apply prefix_cons, prefix_nil.
Qed.

Lemma lookup_step_trace f (u : string → string) e :
  (∀ name alias, (f name alias).2 = [u name]) →
  (∀ y tx, lookup_step f e = (Ok y, tx) → tx = [u (entry_name e)]) ∧
  (∀ err tx, lookup_step f e = (Raise err, tx) →
             tx `prefix_of` [u (entry_name e)]).
Proof.
  intros Hf. destruct (_build_tuple e) as [na|err'] eqn:He.
  - rewrite (lookup_step_ok _ _ _ He). unfold entry_name. rewrite He.
    split; intros ? tx Hstep; pose proof (Hf na.1 na.2) as Htr;
      rewrite Hstep in Htr; simpl in Htr; by subst.
  - unfold lookup_step, lift, io_bind. rewrite He.
    split; intros ? tx [= <- <-]. apply prefix_nil.
Qed.

Lemma lookup_each_trace_prefix f (u : string → string) names :
  (∀ name alias, (f name alias).2 = [u name]) →
  (lookup_each f names).2 `prefix_of` ((u ∘ entry_name) <$> default [] names).
Proof.
  intros Hf. apply io_map_trace_prefix.
  - intros e. by apply (proj1 (lookup_step_trace f u e Hf)).
  - intros e. by apply (proj2 (lookup_step_trace f u e Hf)).
Qed.

Lemma gather_trace_prefix st url sn cn :
  (gather st url sn cn).2 `prefix_of` request_urls url sn cn.
Proof.
  unfold gather, request_urls, io_bind.
  pose proof (lookup_each_trace_prefix (get_service st url) (service_url url) sn
                (get_service_trace st url)) as Hs.
  pose proof (lookup_each_trace_prefix (get_conf st url) (conf_url url) cn
                (get_conf_trace st url)) as Hc.
  destruct (lookup_each (get_service st url) sn) as [[found|e] ts] eqn:Hls;
    simpl in *; [|by apply prefix_app_r].
  rewrite (lookup_each_trace _ (service_url url) _ _ _
             (get_service_trace st url) Hls).
  destruct (lookup_each (get_conf st url) cn) as [[foundc|e] tc];
    simpl in *; rewrite ?app_nil_r; by apply prefix_app.
Qed.

Lemma gather_trace_ok st url sn cn b t :
  gather st url sn cn = (Ok b, t) → t = request_urls url sn cn.
Proof.
  unfold gather, request_urls, io_bind.
  destruct (lookup_each (get_service st url) sn) as [[found|e] ts] eqn:Hls;
    simpl; [|done].
  destruct (lookup_each (get_conf st url) cn) as [[foundc|e] tc] eqn:Hlc;
    simpl; [|done].
  intros [= _ <-]. rewrite app_nil_r.
  rewrite (lookup_each_trace _ (service_url url) _ _ _
             (get_service_trace st url) Hls).
  by rewrite (lookup_each_trace _ (conf_url url) _ _ _
                (get_conf_trace st url) Hlc).
Qed.

(** X20.  [info] asks the store for nothing but the requested names, in
    order: the services of the list first, then the configurations, one
    request each.  An exception cuts the sequence short, a cache hit
    leaves it empty, and a freshly gathered bundle has needed all of
    it. *)
Theorem info_requests_in_order st url sn cn ck fr (cache : gmap string dict) :
  (info st url sn cn ck fr cache).1.2 `prefix_of` request_urls url sn cn ∧
  (∀ b, cache_hit ck fr cache = Some b →
        (info st url sn cn ck fr cache).1 = (Ok b, [])) ∧
  (∀ b, cache_hit ck fr cache = None →
        (info st url sn cn ck fr cache).1.1 = Ok b →
        (info st url sn cn ck fr cache).1.2 = request_urls url sn cn).
Proof.
  destruct (cache_hit ck fr cache) as [c|] eqn:Hhit.
  - rewrite (info_hit _ _ _ _ _ _ _ _ Hhit). simpl.
    split; [apply prefix_nil|]. split; [by intros b [= ->]|done].
  - rewrite (info_miss _ _ _ _ _ _ _ Hhit). simpl.
    split; [apply gather_trace_prefix|]. split; [done|].
    intros b _ Hb. destruct (gather st url sn cn) as [r t] eqn:Hg.
    simpl in *. subst r. by apply (gather_trace_ok _ _ _ _ _ _ Hg).
Qed.

Lemma info_requests_in_order_witness :
  (info sample_store "http://etcd:2379"
     (Some [Obj (PStr "redis"); Tuple ["mongo"; "db"]])
     (Some [Tuple ["app"; "cfg"]]) None false ∅).1.2 =
    ["http://etcd:2379/v2/keys/backends/redis";
     "http://etcd:2379/v2/keys/backends/mongo";
     "http://etcd:2379/v2/keys/project-conf/app?recursive=true"].
Proof.
  eapply (proj2 (proj2 (info_requests_in_order sample_store "http://etcd:2379"
            (Some [Obj (PStr "redis"); Tuple ["mongo"; "db"]])
            (Some [Tuple ["app"; "cfg"]]) None false ∅))).
  - reflexivity.
  - vm_compute. reflexivity.
Defined.

(** X21.  [info] writes to the cache under its own key only, and not at
    all when it raises: every other entry, and on an exception every
    entry, is as before. *)
Theorem info_cache_frame st url sn cn ck fr (cache : gmap string dict) :
  (∀ k, ck ≠ Some k → (info st url sn cn ck fr cache).2 !! k = cache !! k) ∧
  (∀ e, (info st url sn cn ck fr cache).1.1 = Raise e →
        (info st url sn cn ck fr cache).2 = cache).
Proof.
  destruct (cache_hit ck fr cache) as [c|] eqn:Hhit.
  - rewrite (info_hit _ _ _ _ _ _ _ _ Hhit). by split.
  - rewrite (info_miss _ _ _ _ _ _ _ Hhit).
    destruct (gather st url sn cn) as [[b|e] t]; [|by split].
    split; [|intros e; simpl; intros [=]]. intros k Hk. cbn [fst snd].
    destruct ck as [k'|]; [|done].
    destruct (key_given (Some k')); [|done].
    apply lookup_insert_ne. simpl. congruence.
Qed.

Lemma info_cache_frame_witness :
  (info sample_store "http://etcd:2379" (Some [Obj (PStr "mongo")]) None
     (Some "boot") true {[ "other" := moved_bundle ]}).2 !! "other" =
    ({[ "other" := moved_bundle ]} : gmap string dict) !! "other" ∧
  (info sample_store "http://etcd:2379" (Some [Obj (PInt 42)]) None
     (Some "boot") true {[ "boot" := moved_bundle ]}).2 =
    {[ "boot" := moved_bundle ]}.
Proof.
  split.
  - apply (proj1 (info_cache_frame sample_store "http://etcd:2379"
                    (Some [Obj (PStr "mongo")]) None (Some "boot") true
                    {[ "other" := moved_bundle ]})).
    discriminate.
  - apply (proj2 (info_cache_frame sample_store "http://etcd:2379"
                    (Some [Obj (PInt 42)]) None (Some "boot") true
                    {[ "boot" := moved_bundle ]}) ValueError).
    reflexivity.
Defined.

(** X22.  Whenever [info] returns a bundle under a non-empty cache key,
    the cache holds that very bundle under the key afterwards, whether
    it was found there or gathered. *)
Theorem info_result_is_cached st url sn cn k fr (cache : gmap string dict) b :
  k ≠ "" →
  (info st url sn cn (Some k) fr cache).1.1 = Ok b →
  (info st url sn cn (Some k) fr cache).2 !! k = Some b.
Proof.
  intros Hk. pose proof (key_given_nonempty k Hk) as Hgiven.
  destruct (cache_hit (Some k) fr cache) as [c|] eqn:Hhit.
  - rewrite (info_hit _ _ _ _ _ _ _ _ Hhit). simpl. intros [= ->].
    unfold cache_hit in Hhit. destruct fr; [done|]. by rewrite Hgiven in Hhit.
  - rewrite (info_miss _ _ _ _ _ _ _ Hhit).
    destruct (gather st url sn cn) as [[b0|e] t]; [|done].
    cbn [fst snd]. intros [= ->]. unfold key_given. rewrite Hgiven.
    apply lookup_insert_eq.
Qed.

Lemma info_result_is_cached_witness :
  (info sample_store "http://etcd:2379" (Some [Obj (PStr "mongo")]) None
     (Some "boot") false ∅).2 !! "boot" = Some mongo_bundle.
Proof.
  apply (info_result_is_cached sample_store "http://etcd:2379"
           (Some [Obj (PStr "mongo")]) None "boot" false ∅ mongo_bundle).
  - discriminate.
  - vm_compute. reflexivity.
Defined.

Lemma io_map_ok_inv {A B} (f : A → io B) l ys t :
  io_map f l = (Ok ys, t) → Forall2 (fun x y => (f x).1 = Ok y) l ys.
Proof.
  revert ys t. induction l as [|x l IH]; intros ys t; simpl.
  - intros [= <- _]. constructor.
  - destruct (f x) as [[y|e] tx] eqn:Hx; simpl; [|done].
    destruct (io_map f l) as [[ys'|e] tl] eqn:Hl; simpl; [|done].
    intros [= <- _]. constructor; [by rewrite Hx|by eapply IH].
Qed.

Lemma io_map_ext {A B} (f g : A → io B) l :
  (∀ x, f x = g x) → io_map f l = io_map g l.
Proof. intros Hfg. induction l as [|x l IH]; simpl; [done|]. by rewrite Hfg, IH. Qed.

Lemma io_map_fmap {A B C} (f : A → io B) (h : C → A) l :
  io_map f (h <$> l) = io_map (f ∘ h) l.
Proof.
  induction l as [|x l IH]; [done|]. rewrite fmap_cons. simpl. by rewrite IH.
Qed.

Lemma filter_truthy_elem (found : list (option dict)) (d : dict) :
  d ∈ filter_truthy found ↔ Some d ∈ found ∧ py_truthy (PDict d) = true.
Proof.
  unfold filter_truthy. rewrite list_elem_of_omap. split.
  - intros ([d'|] & Hin & Hd); [|done].
    destruct (py_truthy (PDict d')) eqn:Ht; [|done]. by simplify_eq.
  - intros [Hin Ht]. exists (Some d). by rewrite Ht.
Qed.

Lemma merge_dicts_dom (l : list dict) x :
  x ∈ dom (merge_dicts l) ↔ ∃ d, d ∈ l ∧ x ∈ dom d.
Proof.
  induction l as [|d l IH] using rev_ind.
  - rewrite merge_dicts_nil, dom_empty_L. split; [set_solver|].
    by intros (d & ?%elem_of_nil & _).
  - rewrite merge_dicts_snoc, dom_union_L, elem_of_union, IH. split.
    + intros [Hd|(d' & Hd' & Hx)].
      * exists d. split; [|done]. apply elem_of_app. right. by left.
      * exists d'. split; [|done]. apply elem_of_app. by left.
    + intros (d' & [Hd'|Hd']%elem_of_app & Hx).
      * right. eauto.
      * apply list_elem_of_singleton in Hd' as ->. by left.
Qed.

(** What a completed [gather] is made of. *)
Lemma gather_ok_inv st url sn cn b t :
  gather st url sn cn = (Ok b, t) →
  ∃ found ts foundc tc,
    lookup_each (get_service st url) sn = (Ok found, ts) ∧
    lookup_each (get_conf st url) cn = (Ok foundc, tc) ∧
    b = merge_dicts (filter_truthy foundc) ∪
        {[ "services" := PDict (merge_dicts (filter_truthy found)) ]}.
Proof.
  intros Hg.
  destruct (lookup_each (get_service st url) sn) as [[found|e] ts] eqn:Hls.
  2:{ unfold gather, io_bind in Hg. by rewrite Hls in Hg. }
  destruct (lookup_each (get_conf st url) cn) as [[foundc|e] tc] eqn:Hlc.
  2:{ unfold gather, io_bind in Hg. by rewrite Hls, Hlc in Hg. }
  rewrite (gather_ok _ _ _ _ _ _ _ _ Hls Hlc) in Hg.
  exists found, ts, foundc, tc. by simplify_eq.
Qed.

Lemma info_miss_ok st url sn cn ck fr (cache : gmap string dict) b :
  cache_hit ck fr cache = None →
  (info st url sn cn ck fr cache).1.1 = Ok b →
  ∃ t, gather st url sn cn = (Ok b, t).
Proof.
  intros Hmiss. rewrite info_miss by done. simpl.
  destruct (gather st url sn cn) as [r t]. simpl. intros ->. eauto.
Qed.

(** The dictionaries a comprehension found come from its entries. *)
Lemma lookup_each_found f names found t (d : dict) :
  lookup_each f names = (Ok found, t) →
  Some d ∈ found ↔
  ∃ e na, e ∈ default [] names ∧ _build_tuple e = Ok na ∧
          (f na.1 na.2).1 = Ok (Some d).
Proof.
  intros Hl. apply io_map_ok_inv in Hl. split.
  - intros Hin. apply list_elem_of_lookup in Hin as [i Hi].
    destruct (Forall2_lookup_r _ _ _ _ _ Hl Hi) as (e & He & Hstep).
    destruct (_build_tuple e) as [na|err] eqn:Hbt.
    + rewrite (lookup_step_ok _ _ _ Hbt) in Hstep.
      exists e, na. split; [by eapply list_elem_of_lookup_2|done].
    + unfold lookup_step, lift, io_bind in Hstep. by rewrite Hbt in Hstep.
  - intros (e & na & Hin & Hbt & Hf).
    apply list_elem_of_lookup in Hin as [i Hi].
    destruct (Forall2_lookup_l _ _ _ _ _ Hl Hi) as (y & Hy & Hstep).
    rewrite (lookup_step_ok _ _ _ Hbt), Hf in Hstep. simplify_eq.
    by eapply list_elem_of_lookup_2.
Qed.

(** X23.  A freshly gathered bundle always has the key ["services"];
    when the configuration aliases are non-empty, its other keys are
    aliases of the configuration requests: nothing else gets in. *)
Theorem info_bundle_keys st url sn cn ck fr (cache : gmap string dict) bundle :
  cache_hit ck fr cache = None →
  (info st url sn cn ck fr cache).1.1 = Ok bundle →
  (∀ e na, e ∈ default [] cn → _build_tuple e = Ok na → na.2 ≠ "") →
  is_Some (bundle !! "services") ∧
  ∀ x, x ∈ dom bundle →
       x = "services" ∨
       ∃ e na, e ∈ default [] cn ∧ _build_tuple e = Ok na ∧ na.2 = x.
Proof.
  intros Hmiss Hb Halias.
  destruct (info_miss_ok _ _ _ _ _ _ _ _ Hmiss Hb) as [t Hg].
  destruct (gather_ok_inv _ _ _ _ _ _ Hg) as (found & ts & foundc & tc & Hls & Hlc & ->).
  split.
  - apply elem_of_dom. rewrite dom_union_L, dom_singleton_L. set_unfold. auto.
  - intros x. rewrite dom_union_L, dom_singleton_L, elem_of_union,
      elem_of_singleton, merge_dicts_dom.
    intros [(d & Hd & Hx)| ->]; [right|by left].
    apply filter_truthy_elem in Hd as [Hd _].
    apply (lookup_each_found _ _ _ _ _ Hlc) in Hd as (e & na & Hin & Hbt & Hf).
    exists e, na. split; [done|]. split; [done|].
    destruct (get_conf_some _ _ _ _ _ (Halias _ _ Hin Hbt) Hf) as [v ->].
    rewrite dom_singleton_L in Hx. by apply elem_of_singleton in Hx.
Qed.

Lemma info_bundle_keys_witness :
  is_Some (small_bundle !! "services") ∧
  ∀ x, x ∈ dom small_bundle →
       x = "services" ∨
       ∃ e na, e ∈ [Tuple ["app"; "cfg"]] ∧ _build_tuple e = Ok na ∧ na.2 = x.
Proof.
  apply (info_bundle_keys small_store "http://etcd:2379"
           (Some [Tuple ["mongo"; "db"]]) (Some [Tuple ["app"; "cfg"]])
           None false ∅ small_bundle).
  - reflexivity.
  - vm_compute. reflexivity.
  - intros e na ->%list_elem_of_singleton [= <-]. discriminate.
Defined.

(** X24.  With no configuration requested, the bundle is
    [{"services": m}] and the keys of [m] are exactly the aliases of
    the service requests that resolved: absent ones leave no trace,
    resolved ones are never lost. *)
Theorem info_services_aliases st url sn ck fr (cache : gmap string dict) bundle :
  cache_hit ck fr cache = None →
  (info st url sn None ck fr cache).1.1 = Ok bundle →
  ∃ services : dict,
    bundle = {[ "services" := PDict services ]} ∧
    ∀ x, x ∈ dom services ↔
         ∃ e na (d : dict),
           e ∈ default [] sn ∧ _build_tuple e = Ok na ∧ na.2 = x ∧
           (get_service st url na.1 na.2).1 = Ok (Some d).
Proof.
  intros Hmiss Hb.
  destruct (info_miss_ok _ _ _ _ _ _ _ _ Hmiss Hb) as [t Hg].
  destruct (gather_ok_inv _ _ _ _ _ _ Hg) as (found & ts & foundc & tc & Hls & Hlc & ->).
  injection Hlc as <- _.
  exists (merge_dicts (filter_truthy found)). split.
  { change (filter_truthy []) with (@nil dict).
    by rewrite merge_dicts_nil, (left_id_L ∅ (∪)). }
  intros x. rewrite merge_dicts_dom. split.
  - intros (d & Hd & Hx). apply filter_truthy_elem in Hd as [Hd _].
    apply (lookup_each_found _ _ _ _ _ Hls) in Hd as (e & na & Hin & Hbt & Hf).
    exists e, na, d. repeat split; try done.
    destruct (get_service_some _ _ _ _ _ Hf) as [replicas ->].
    rewrite dom_singleton_L in Hx. by apply elem_of_singleton in Hx.
  - intros (e & na & d & Hin & Hbt & <- & Hf). exists d. split.
    + apply filter_truthy_elem. split.
      * apply (lookup_each_found _ _ _ _ _ Hls). eauto.
      * destruct (get_service_some _ _ _ _ _ Hf) as [replicas ->].
        apply singleton_truthy.
    + destruct (get_service_some _ _ _ _ _ Hf) as [replicas ->].
      rewrite dom_singleton_L. by apply elem_of_singleton.
Qed.

Lemma info_services_aliases_witness :
  ∃ services : dict,
    mongo_bundle = {[ "services" := PDict services ]} ∧
    ∀ x, x ∈ dom services ↔
         ∃ e na (d : dict),
           e ∈ [Obj (PStr "redis"); Obj (PStr "mongo")] ∧
           _build_tuple e = Ok na ∧ na.2 = x ∧
           (get_service sample_store "http://etcd:2379" na.1 na.2).1 =
             Ok (Some d).
Proof.
  apply (info_services_aliases sample_store "http://etcd:2379"
           (Some [Obj (PStr "redis"); Obj (PStr "mongo")]) None false ∅
           mongo_bundle).
  - reflexivity.
  - vm_compute. reflexivity.
Defined.

Lemma build_tuple_as_pair e : _build_tuple (as_pair e) = _build_tuple e.
Proof. destruct e as [t|v]; [done|]. by destruct v. Qed.

Lemma lookup_each_as_pair f (names : option (list entry)) :
  lookup_each f (as_pairs names) = lookup_each f names.
Proof.
  unfold lookup_each. destruct names as [l|]; [|done]. simpl.
  rewrite io_map_fmap. apply io_map_ext. intros e.
  unfold compose, lookup_step. by rewrite build_tuple_as_pair.
Qed.

(** X25.  A bare name and the pair [(name, name)] are the same request:
    writing out every bare string of both lists as a pair changes
    neither the outcome, nor the requests sent, nor the cache. *)
Theorem info_bare_string_as_pair st url (sn cn : option (list entry)) ck fr
    (cache : gmap string dict) :
  info st url (as_pairs sn) (as_pairs cn) ck fr cache =
  info st url sn cn ck fr cache.
Proof.
  unfold info, gather. by rewrite !lookup_each_as_pair.
Qed.

(** X26.  Under the alias, a resolved directory has one key per child
    name -- the last path segment of the child's key -- and under each
    name the resolution of the last child of that name. *)
Theorem get_conf_children_by_name
    st url name alias (resp : dict) node key children :
  alias ≠ "" →
  st (conf_url url name) = Ok (PDict resp) →
  resp !! "node" = Some node →
  encodes node (Dir key children) →
  ∃ m : dict,
    get_conf st url name alias =
      (Ok (Some {[ alias := PDict m ]}), [conf_url url name]) ∧
    dom m = list_to_set ((last_path_segment ∘ tree_key) <$> children) ∧
    ∀ before c after,
      children = (before ++ c :: after)%list →
      last_path_segment (tree_key c) ∉
        (last_path_segment ∘ tree_key) <$> after →
      m !! last_path_segment (tree_key c) = Some (resolved c).
Proof.
  intros Ha Hst Hnode Henc.
  set (single := fun c : conf_tree =>
                   ({[ last_path_segment (tree_key c) := resolved c ]} : dict)).
  exists (merge_dicts (map single children)). split; [|split].
  - rewrite (get_conf_eval _ _ _ _ _ _ Hst Hnode).
    by rewrite (build_conf_encodes _ node (Some alias) alias Henc
                  (current_key_of_alias _ _ Ha)).
  - apply set_eq. intros x. rewrite merge_dicts_dom, elem_of_list_to_set,
      list_elem_of_fmap. split.
    + intros (d & Hd & Hx). apply list_elem_of_fmap in Hd as (c & -> & Hc).
      exists c. split; [|done]. unfold single in Hx.
      rewrite dom_singleton_L in Hx. by apply elem_of_singleton in Hx.
    + intros (c & -> & Hc). exists (single c). split.
      * apply list_elem_of_fmap. eauto.
      * unfold single. rewrite dom_singleton_L. by apply elem_of_singleton.
  - intros before c after -> Hlast.
    change (map single (before ++ c :: after))
      with (single <$> (before ++ c :: after)%list).
    rewrite fmap_app, fmap_cons. apply merge_dicts_lookup_some.
    + apply lookup_singleton_eq.
    + intros d' (c' & -> & Hc')%list_elem_of_fmap.
      apply lookup_singleton_ne. intros Heq. apply Hlast.
      apply list_elem_of_fmap. exists c'. by split.
Qed.

Lemma get_conf_children_by_name_witness :
  ∃ m : dict,
    get_conf sample_store "http://etcd:2379" "app" "cfg" =
      (Ok (Some {[ "cfg" := PDict m ]}), [conf_url "http://etcd:2379" "app"]) ∧
    dom m = list_to_set ((last_path_segment ∘ tree_key) <$>
              [Dir "/project-conf/app/a"
                 [Dir "/project-conf/app/a/b"
                    [Leaf "/project-conf/app/a/b/c" (PStr "v")]]]) ∧
    ∀ before c after,
      [Dir "/project-conf/app/a"
         [Dir "/project-conf/app/a/b"
            [Leaf "/project-conf/app/a/b/c" (PStr "v")]]] =
        (before ++ c :: after)%list →
      last_path_segment (tree_key c) ∉
        (last_path_segment ∘ tree_key) <$> after →
      m !! last_path_segment (tree_key c) = Some (resolved c).
Proof.
  eapply (get_conf_children_by_name sample_store "http://etcd:2379" "app" "cfg"
            _ _ "/project-conf/app").
  - discriminate.
  - reflexivity.
  - reflexivity.
  - repeat (econstructor; try reflexivity; try discriminate).
Defined.

(** ** The script *)

Lemma main_requests_eq the_url :
  request_urls the_url
    (Some [Tuple ["redis-main"; "redis"]; Tuple ["mongo-production"; "mongo"];
           Obj (PStr "nexus"); Obj (PStr "fake")])
    (Some [Tuple ["yunkai-dev"; "yunkai"]; Obj (PStr "smscenter");
           Obj (PStr "fake")]) =
  drop 2 (main_urls the_url).
Proof. reflexivity. Qed.

(** X27.  Run as a script, the module needs the etcd URL as its first
    argument ([IndexError] before any request otherwise); it asks the
    store for at most the nine URLs of [main_urls], in that order --
    all nine when it ends without exception -- and never writes to the
    cache. *)
Theorem main_requests st argv (cache : gmap string dict) :
  (main st argv cache).2 = cache ∧
  (argv !! 1%nat = None → (main st argv cache).1 = (Raise IndexError, [])) ∧
  (∀ the_url, argv !! 1%nat = Some the_url →
     (main st argv cache).1.2 `prefix_of` main_urls the_url ∧
     ((main st argv cache).1.1 = Ok tt →
      (main st argv cache).1.2 = main_urls the_url)).
Proof.
  unfold main. change 1 with (Z.of_nat 1). rewrite py_index_nat.
  destruct (argv !! 1%nat) as [the_url|]; [|by repeat split].
  assert (∀ (c : io (option dict)) u,
            c.2 = [u] → c = (c.1, [u])) as Hpair.
  { intros [r t] u. simpl. by intros ->. }
  rewrite (Hpair _ _ (get_service_trace st the_url "mongo-production" "mongo")).
  rewrite (Hpair _ _ (get_conf_trace st the_url "yunkai-dev" "yunkai")).
  unfold io_bind, io_ret.
  destruct (get_service st the_url "mongo-production" "mongo").1 as [r1|e1].
  2:{ split; [done|]. split; [done|]. intros ? [= <-]. split; [|done].
      apply prefix_cons, prefix_nil. }
  destruct (get_conf st the_url "yunkai-dev" "yunkai").1 as [r2|e2].
  2:{ split; [done|]. split; [done|]. intros ? [= <-]. split; [|done].
      simpl. do 2 apply prefix_cons. apply prefix_nil. }
  rewrite info_miss by done. simpl.
  pose proof (gather_trace_prefix st the_url
    (Some [Tuple ["redis-main"; "redis"]; Tuple ["mongo-production"; "mongo"];
           Obj (PStr "nexus"); Obj (PStr "fake")])
    (Some [Tuple ["yunkai-dev"; "yunkai"]; Obj (PStr "smscenter");
           Obj (PStr "fake")])) as Hpre.
  pose proof (gather_trace_ok st the_url
    (Some [Tuple ["redis-main"; "redis"]; Tuple ["mongo-production"; "mongo"];
           Obj (PStr "nexus"); Obj (PStr "fake")])
    (Some [Tuple ["yunkai-dev"; "yunkai"]; Obj (PStr "smscenter");
           Obj (PStr "fake")])) as Hok.
  rewrite main_requests_eq in Hpre, Hok.
  destruct (gather st the_url _ _) as [[b|e] t]; simpl in *.
  - split; [done|]. split; [done|]. intros ? [= <-].
    rewrite (Hok b t eq_refl). split; [|done]. done.
  - split; [done|]. split; [done|]. intros ? [= <-]. split; [|done].
    by do 2 apply prefix_cons.
Qed.

Lemma main_requests_witness :
  (main sample_store ["etcd.py"] ∅).1 = (Raise IndexError, []) ∧
  (main sample_store ["etcd.py"; "http://etcd:2379"] ∅).1.2
    `prefix_of` main_urls "http://etcd:2379" ∧
  (main sample_store ["etcd.py"; "http://etcd:2379"] ∅).1.2 =
    main_urls "http://etcd:2379".
Proof.
  split; [|split].
  - apply (proj1 (proj2 (main_requests sample_store ["etcd.py"] ∅))).
    reflexivity.
  - apply (proj2 (proj2 (main_requests sample_store
                           ["etcd.py"; "http://etcd:2379"] ∅))
             "http://etcd:2379" eq_refl).
  - apply (proj2 (proj2 (main_requests sample_store
                           ["etcd.py"; "http://etcd:2379"] ∅))
             "http://etcd:2379" eq_refl).
    vm_compute. reflexivity.
Defined.
